(** * find_duplicates.py: a shallow embedding of the duplicate report builder

    The Python program runs jdupes, groups its match sets by owning folder
    and renders a Markdown report.  This file embeds the pure core:
    [MatchSet], [JDupesOutput._create_folder_cache],
    [JDupesOutput.folders_with_duplicates], [JDupesOutput.duplicates_in_folder],
    [JDupesOutput.total_size], [JDupesOutput.to_markdown] and [humansize].

    Modelling choices:
    - a [pathlib.PurePosixPath] is its anchor ([root]: "", "/" or "//") and
      its list of parts; [parent] drops the last part (the parent of the
      anchor is the anchor itself), equality is equality of both fields;
    - a [MatchSet] object has no [__eq__]/[__hash__], so a Python
      [set[MatchSet]] is a set of object identities: the match sets are kept
      in a list and an object is its position in that list;
    - a Python [set] that is only added to is a duplicate-free list in
      insertion order; a [frozenset[Path]] (compared by value) is a
      [gset Path];
    - a Python [dict] is a [gmap]; a missing key raises [KeyError], which is
      [None] in the option results. *)

From Stdlib Require Import ZArith Permutation Sorted DecimalString Ascii String.
From stdpp Require Import base gmap list strings.

Set Warnings "-register-all".

(* ------------------------------------------------------------------ *)
(** ** Paths *)

Record Path := mkPath { root : string; parts : list string }.

#[global] Instance Path_eq_dec : EqDecision Path.
Proof. solve_decision. Defined.

#[global] Instance Path_countable : Countable Path.
Proof.
  apply (inj_countable' (fun p => (root p, parts p))
                        (fun rp => mkPath rp.1 rp.2)).
  by intros [].
Defined.

(** [Path.parent] *)
Definition parent (p : Path) : Path := mkPath (root p) (removelast (parts p)).

(* ------------------------------------------------------------------ *)
(** ** MatchSet and DuplicateInFolder *)

(** A constructed [MatchSet]: [_file_size] and [_file_list]. *)
Record MatchSet := mkMatchSet { file_size : Z; file_list : list Path }.

(** [MatchSet.directory_list]: [[x.parent for x in self._file_list]] *)
Definition directory_list (ms : MatchSet) : list Path := parent <$> file_list ms.

(** [@dataclass(frozen=True) class DuplicateInFolder] *)
Record DuplicateInFolder := mkDuplicateInFolder {
  in_duplicate_folder : Path;
  other_paths : gset Path;
  size : Z
}.

#[global] Instance DuplicateInFolder_eq_dec : EqDecision DuplicateInFolder.
Proof. solve_decision. Defined.

(** [s.add(x)] on a Python set, kept as a duplicate-free list. *)
Definition set_add {A} `{EqDecision A} (x : A) (s : list A) : list A :=
  if decide (x ∈ s) then s else s ++ [x].

(* ------------------------------------------------------------------ *)
(** ** JDupesOutput *)

(** The state of a [JDupesOutput] after [__init__] that the report uses:
    [self.match_sets] and [self._folder_cache] (the cache maps a folder to
    the identities of the match sets indexed for it). *)
Record JDupesOutput := mkJDupesOutput {
  match_sets : list MatchSet;
  folder_cache : gmap Path (list nat)
}.

(** One iteration of the inner loop of [_create_folder_cache]:
<<
        if folder not in result:
            result[folder] = set()
        result[folder].add(match_set)
>> *)
Definition cache_add_folder (i : nat) (result : gmap Path (list nat)) (folder : Path)
  : gmap Path (list nat) :=
  let result := match result !! folder with
                | None => <[folder := []]> result
                | Some _ => result
                end in
  match result !! folder with
  | Some s => <[folder := set_add i s]> result
  | None => result
  end.

(** The outer loop, over the match sets; [i] is the identity of the head. *)
Fixpoint cache_loop (i : nat) (mss : list MatchSet) (result : gmap Path (list nat))
  : gmap Path (list nat) :=
  match mss with
  | [] => result
  | ms :: rest =>
      cache_loop (S i) rest (foldl (cache_add_folder i) result (directory_list ms))
  end.

(** [JDupesOutput._create_folder_cache] *)
Definition create_folder_cache (mss : list MatchSet) : gmap Path (list nat) :=
  cache_loop 0 mss ∅.

(** [JDupesOutput.__init__] once the match sets are read. *)
Definition build (mss : list MatchSet) : JDupesOutput :=
  mkJDupesOutput mss (create_folder_cache mss).

(** [JDupesOutput.total_size]: [sum(map(lambda x: x.file_size, self.match_sets))] *)
Definition total_size (o : JDupesOutput) : Z :=
  foldr (fun ms acc => file_size ms + acc)%Z 0%Z (match_sets o).

(** [JDupesOutput.folders_with_duplicates] *)
Definition folders_with_duplicates (o : JDupesOutput) : list Path :=
  foldl (fun result ms =>
           foldl (fun result file_path => set_add (parent file_path) result)
                 result (file_list ms))
        [] (match_sets o).

(** The body of the inner loop of [duplicates_in_folder] for one file. *)
Definition dup_file_step (folder : Path) (ms : MatchSet)
    (result : list DuplicateInFolder) (file_path : Path) : list DuplicateInFolder :=
  if decide (parent file_path = folder) then
    (* [set(file_list.copy())] then [.remove(file_path)]: [file_path] is an
       element of the list, so the removal does not raise *)
    let other_files : gset Path := list_to_set (file_list ms) ∖ {[file_path]} in
    set_add (mkDuplicateInFolder file_path other_files (file_size ms)) result
  else result.

(** The outer loop of [duplicates_in_folder], over one cached set. *)
Definition dup_set_step (mss : list MatchSet) (folder : Path)
    (result : list DuplicateInFolder) (i : nat) : list DuplicateInFolder :=
  match mss !! i with
  | Some ms => foldl (dup_file_step folder ms) result (file_list ms)
  | None => result
  end.

(** [JDupesOutput.duplicates_in_folder]; [None] is the [KeyError] raised by
    [self._folder_cache[folder]]. *)
Definition duplicates_in_folder (o : JDupesOutput) (folder : Path)
  : option (list DuplicateInFolder) :=
  match folder_cache o !! folder with
  | None => None
  | Some s => Some (foldl (dup_set_step (match_sets o) folder) [] s)
  end.

(* ------------------------------------------------------------------ *)
(** ** Strings *)

Definition str_of_N (n : N) : string := NilZero.string_of_uint (N.to_uint n).

(** [str(i)] for a Python int. *)
Definition str_of_Z (z : Z) : string :=
  if decide (z < 0)%Z then "-" +:+ str_of_N (Z.to_N (- z)) else str_of_N (Z.to_N z).

Fixpoint drop_while {A} (P : A -> bool) (l : list A) : list A :=
  match l with
  | [] => []
  | x :: l' => if P x then drop_while P l' else l
  end.

(** [s.rstrip(c)] for a single character [c]. *)
Definition rstrip (c : ascii) (s : string) : string :=
  string_of_list_ascii
    (rev (drop_while (fun d => bool_decide (d = c)) (rev (list_ascii_of_string s)))).

(** [sep.join(xs)] *)
Fixpoint join (sep : string) (xs : list string) : string :=
  match xs with
  | [] => ""
  | [x] => x
  | x :: xs' => x +:+ sep +:+ join sep xs'
  end.

Definition tab : string := String (ascii_of_nat 9) EmptyString.
Definition newline : string := String (ascii_of_nat 10) EmptyString.

(* ------------------------------------------------------------------ *)
(** ** humansize *)

(** Python numbers met by [humansize]: an [int], or a binary [float] whose
    value is [m / 2^e] (every float the function produces has this form). *)
Inductive PyNum :=
| PyInt (n : Z)
| PyFloat (m : Z) (e : nat).

(** [a / b] rounded to the nearest integer, ties to even ([a >= 0], [b > 0]). *)
Definition round_half_even (a b : Z) : Z :=
  let q := (a / b)%Z in
  let r := (a mod b)%Z in
  if decide (2 * r < b)%Z then q
  else if decide (2 * r > b)%Z then q + 1
  else if Z.even q then q else q + 1.

(** [float(n)] for an int: round to 53 significant bits, ties to even;
    [None] is the [OverflowError] for a result of [2^1024] or more. *)
Definition float_of_int (n : Z) : option Z :=
  let a := Z.abs n in
  let r := if decide (a < 2 ^ 53)%Z then a
           else let k := (Z.log2 a - 52)%Z in
                (round_half_even a (2 ^ k) * 2 ^ k)%Z in
  if decide (r >= 2 ^ 1024)%Z then None
  else Some (if decide (n < 0)%Z then - r else r)%Z.

(** [nbytes >= 1024] *)
Definition py_ge_1024 (x : PyNum) : bool :=
  match x with
  | PyInt n => bool_decide (n >= 1024)%Z
  | PyFloat m e => bool_decide (m >= 1024 * 2 ^ Z.of_nat e)%Z
  end.

(** [nbytes /= 1024.]: an int is converted to a float first; dividing a
    float by [1024] is exact. *)
Definition py_div_1024 (x : PyNum) : option PyNum :=
  match x with
  | PyInt n => m ← float_of_int n; Some (PyFloat m 10)
  | PyFloat m e => Some (PyFloat m (e + 10))
  end.

(** [f'{m / 2^e:.2f}']: the exact value rounded to two decimals, ties to even. *)
Definition fixed2 (m : Z) (e : nat) : string :=
  let r := round_half_even (Z.abs m * 100) (2 ^ Z.of_nat e) in
  let frac := (r mod 100)%Z in
  (if decide (m < 0)%Z then "-" else "") +:+ str_of_Z (r / 100) +:+ "." +:+
  (if decide (frac < 10)%Z then "0" else "") +:+ str_of_Z frac.

(** [f'{nbytes:.2f}']; an int is formatted through [float(nbytes)]. *)
Definition format2f (x : PyNum) : option string :=
  match x with
  | PyInt n => m ← float_of_int n; Some (fixed2 m 0)
  | PyFloat m e => Some (fixed2 m e)
  end.

Definition suffixes : list string := ["B"; "KB"; "MB"; "GB"; "TB"; "PB"].

(** The [while] loop of [humansize]; it runs at most [len(suffixes) - 1]
    times, so [length suffixes] is enough fuel. *)
Fixpoint humansize_loop (fuel : nat) (nbytes : PyNum) (i : nat) : option (PyNum * nat) :=
  match fuel with
  | O => Some (nbytes, i)
  | S fuel' =>
      if py_ge_1024 nbytes && bool_decide (i < length suffixes - 1) then
        nbytes' ← py_div_1024 nbytes; humansize_loop fuel' nbytes' (S i)
      else Some (nbytes, i)
  end.

(** [humansize(nbytes)] for an int argument. *)
Definition humansize (nbytes : Z) : option string :=
  '(x, i) ← humansize_loop (length suffixes) (PyInt nbytes) 0;
  s ← format2f x;
  let size := rstrip "." (rstrip "0" s) in
  suffix ← suffixes !! i;
  Some (size +:+ "  " +:+ suffix).

(** The size formatter as the spec words it: the unit is the least [i] for
    which a larger unit is left no more ([i = 5]) or the value divided [i]
    times by [1024] stays below [1024] ([n < 1024^(i+1)]); the value
    [n / 1024^i] (of [float(n)], as Python divides floats) is rendered with
    two decimals, trailing zeros and a trailing point are stripped, and the
    unit is appended. *)
Definition unit_index (n : Z) : nat :=
  if decide (n < 2 ^ 10)%Z then 0
  else if decide (n < 2 ^ 20)%Z then 1
  else if decide (n < 2 ^ 30)%Z then 2
  else if decide (n < 2 ^ 40)%Z then 3
  else if decide (n < 2 ^ 50)%Z then 4
  else 5.

Definition humansize_spec (n : Z) : option string :=
  m ← float_of_int n;
  let i := unit_index n in
  suffix ← suffixes !! i;
  Some (rstrip "." (rstrip "0" (fixed2 m (10 * i))) +:+ "  " +:+ suffix).

(* ------------------------------------------------------------------ *)
(** ** Paths as strings *)

(** Splitting a path string at ["/"]. *)
Fixpoint split_slash (s : list ascii) (cur : list ascii) : list (list ascii) :=
  match s with
  | [] => [rev cur]
  | c :: s' => if bool_decide (c = "/"%char) then rev cur :: split_slash s' []
               else split_slash s' (c :: cur)
  end.

(** [PurePosixPath(s)]: one leading slash or three and more make the root
    ["/"], exactly two make ["//"]; empty parts and ["."] parts are dropped. *)
Definition parse_path (s : string) : Path :=
  let cs := list_ascii_of_string s in
  let lead := length cs - length (drop_while (fun c => bool_decide (c = "/"%char)) cs) in
  let root := if bool_decide (lead = 0) then ""
              else if bool_decide (lead = 2) then "//" else "/" in
  let ps := filter (fun x => x <> [] /\ x <> ["."%char])
                   (split_slash (drop lead cs) []) in
  mkPath root (map string_of_list_ascii ps).

(** [str(path)] *)
Definition path_str (q : Path) : string :=
  match root q, parts q with
  | "", [] => "."
  | r, ps => r +:+ join "/" ps
  end.

(** [path.name] *)
Definition path_name (q : Path) : string := default "" (last (parts q)).

(** [path.relative_to(base)]; [None] is the [ValueError]. *)
Definition relative_to (q base : Path) : option Path :=
  if bool_decide (root q = root base /\ parts base `prefix_of` parts q)
  then Some (mkPath "" (drop (length (parts base)) (parts q)))
  else None.

(** [path.is_relative_to(base)] *)
Definition is_relative_to (q base : Path) : bool :=
  bool_decide (root q = root base /\ parts base `prefix_of` parts q).

(* ------------------------------------------------------------------ *)
(** ** NextcloudInfo and the report *)

Section Report.

(** The user name of the [NextcloudInfo]. *)
Variable user : string.
(** [Path.is_dir()], [Path.iterdir()] and [urllib.parse.quote]: the file
    system and the URL quoting are outside the program. *)
Variable is_dir : Path -> bool.
Variable iterdir : Path -> list Path.
Variable quote : string -> string.
(** The domain of the [NextcloudInfo]. *)
Variable domain : string.

(** [NextcloudInfo.user_file_path] *)
Definition user_file_path : Path :=
  parse_path ("/var/www/html/data/" +:+ user +:+ "/files/").

(** [NextcloudInfo.base_file_url] *)
Definition base_file_url : string := domain +:+ "/apps/files/?dir=/".

(** [NextcloudInfo._create_folder_link] *)
Definition create_folder_link (q : Path) : string :=
  "[" +:+ path_str q +:+ "](" +:+ base_file_url +:+ quote (path_str q) +:+ ")".

(** [NextcloudInfo.create_link] *)
Definition create_link (q : Path) : string :=
  let q := if is_relative_to q user_file_path
           then default q (relative_to q user_file_path) else q in
  if is_dir q then create_folder_link q
  else create_folder_link (parent q) +:+ "/" +:+ path_name q.

Variable o : JDupesOutput.

(** A row of [duplicate_folders] in [to_markdown]. *)
Record FolderRow := mkFolderRow {
  row_folder : Path;
  row_duplicates : list DuplicateInFolder;
  row_not_duplicates : list Path
}.

(** The first loop of [to_markdown], for one folder. *)
Definition folder_row (duplicate_folder : Path) : option FolderRow :=
  let all_files := iterdir duplicate_folder in
  dups ← duplicates_in_folder o duplicate_folder;
  let duplicate_files :=
    foldl (fun s d => set_add (in_duplicate_folder d) s) [] dups in
  let not_duplicate_files :=
    filter (fun x => x ∉ duplicate_files) all_files in
  Some (mkFolderRow duplicate_folder dups not_duplicate_files).

(** [sorted(duplicate_folders, key=lambda x: len(x[2]))]: Python's sort is
    stable, so it is the insertion sort that puts each row after the rows
    of smaller or equal key. *)
Definition row_key (r : FolderRow) : nat := length (row_not_duplicates r).

Fixpoint insert_row (r : FolderRow) (rs : list FolderRow) : list FolderRow :=
  match rs with
  | [] => [r]
  | r' :: rs' => if bool_decide (row_key r < row_key r') then r :: rs
                 else r' :: insert_row r rs'
  end.

Definition sort_rows (rs : list FolderRow) : list FolderRow :=
  foldl (fun acc r => insert_row r acc) [] rs.

(** [sum(map(lambda x: x.size, ...))] *)
Definition sum_sizes (ds : list DuplicateInFolder) : Z :=
  foldr (fun d acc => size d + acc)%Z 0%Z ds.

Definition pure_duplicates_marker : string := "Dieser Ordner enthält nur Duplikate  ".

(** The lines of one duplicated file. *)
Definition duplicate_lines (d : DuplicateInFolder) : option (list string) :=
  rel ← relative_to (in_duplicate_folder d) user_file_path;
  hs ← humansize (size d);
  let duplicate_files_str :=
    tab +:+ "- " +:+ join ("  " +:+ newline +:+ tab +:+ "- ")
                          (map create_link (elements (other_paths d))) in
  Some ["- " +:+ path_str rel +:+ "  ";
        tab +:+ "Größe: " +:+ hs +:+ "  ";
        tab +:+ "Andere(r) Ordner:  ";
        duplicate_files_str +:+ "  "].

(** The lines of one non-duplicated file. *)
Definition not_duplicate_line (x : Path) : option string :=
  rel ← relative_to x user_file_path;
  Some ("- " +:+ path_str rel).

(** The body of the second loop of [to_markdown], for one row. *)
Definition folder_section (r : FolderRow) : option (list string) :=
  let folder_link := create_link (row_folder r) in
  dups ← duplicates_in_folder o (row_folder r);
  duplicate_folder_size ← humansize (sum_sizes dups);
  dlines ← mapM duplicate_lines (row_duplicates r);
  nlines ← mapM not_duplicate_line (row_not_duplicates r);
  Some (["## Ordner mit Duplikaten: " +:+ folder_link;
         "Die Duplikate in diesem Ordner sind " +:+ duplicate_folder_size +:+ " groß  "] ++
        (if bool_decide (length (row_not_duplicates r) = 0)
         then [pure_duplicates_marker] else []) ++
        ["### Duplizierte Dateien:"] ++ concat dlines ++
        (if bool_decide (0 < length (row_not_duplicates r))
         then "### Nicht duplizierte Dateien" :: nlines else [])).

(** The global header of the report. *)
Definition header_lines : option (list string) :=
  total ← humansize (total_size o);
  Some ["# Duplikate von " +:+ user;
        "Es gibt " +:+ str_of_N (N.of_nat (length (match_sets o))) +:+ " Duplikate in " +:+
          str_of_N (N.of_nat (length (folders_with_duplicates o))) +:+ " Ordnern.  ";
        "Diese sind insgesamt " +:+ total +:+ " groß.";
        "## Alle Ordner mit Duplikaten"].

(** [JDupesOutput.to_markdown] *)
Definition to_markdown : option string :=
  duplicate_folders ← mapM folder_row (folders_with_duplicates o);
  let duplicate_folders := sort_rows duplicate_folders in
  header ← header_lines;
  sections ← mapM folder_section duplicate_folders;
  Some (join newline (header ++ concat sections)).

End Report.

(* ------------------------------------------------------------------ *)
(** ** MatchSet.__init__ on the parsed JSON *)

(** A value produced by [json.loads] (numbers other than integers are left
    out: they play no part in the claims). An object is its list of
    key/value pairs; for a repeated key the last value wins. *)
Inductive json :=
| JNull
| JBool (b : bool)
| JInt (z : Z)
| JStr (s : string)
| JArr (xs : list json)
| JObj (kvs : list (string * json)).

Inductive PyError := KeyError | TypeError.

Definition result (A : Type) : Type := PyError + A.

Definition rbind {A B} (x : result A) (f : A -> result B) : result B :=
  match x with inl e => inl e | inr a => f a end.

Notation "x <- m ;; k" := (rbind m (fun x => k)) (at level 100, m at next level, right associativity).

(** [value[key]] with a string key. *)
Definition getitem (j : json) (key : string) : result json :=
  match j with
  | JObj kvs =>
      match list_find (fun kv => kv.1 = key) (rev kvs) with
      | Some (_, (_, v)) => inr v
      | None => inl KeyError
      end
  | _ => inl TypeError
  end.

(** [for x in value]: lists give their elements, objects their keys and
    strings their characters. *)
Definition py_iter (j : json) : result (list json) :=
  match j with
  | JArr xs => inr xs
  | JObj kvs => inr (map JStr (remove_dups (map fst kvs)))
  | JStr s => inr (map (fun c => JStr (String c EmptyString)) (list_ascii_of_string s))
  | _ => inl TypeError
  end.

(** [Path(value)] *)
Definition py_path (j : json) : result Path :=
  match j with
  | JStr s => inr (parse_path s)
  | _ => inl TypeError
  end.

(** A [MatchSet] as [__init__] builds it: [_file_size] keeps the JSON value
    it was given, unchecked. *)
Record RawMatchSet := mkRawMatchSet { raw_file_size : json; raw_file_list : list Path }.

Fixpoint get_file_list_loop (xs : list json) : result (list Path) :=
  match xs with
  | [] => inr []
  | str_path :: rest =>
      v <- getitem str_path "filePath";;
      q <- py_path v;;
      qs <- get_file_list_loop rest;;
      inr (q :: qs)
  end.

(** [MatchSet._get_file_list] *)
Definition get_file_list (json_data : json) : result (list Path) :=
  fl <- getitem json_data "fileList";;
  xs <- py_iter fl;;
  get_file_list_loop xs.

(** [MatchSet.__init__] *)
Definition MatchSet_init (json_data : json) : result RawMatchSet :=
  fs <- getitem json_data "fileSize";;
  fl <- get_file_list json_data;;
  inr (mkRawMatchSet fs fl).

(* ------------------------------------------------------------------ *)
(** ** duplicates_in_folder on the object heap *)

(** The Python objects that [duplicates_in_folder] reads or creates: lists
    and sets of paths, sets of match-set identities, and the cache dict,
    which maps a folder to the location of its set. *)
Inductive Obj :=
| OPathList (l : list Path)
| OPathSet (l : list Path)
| OIdSet (l : list nat)
| ODict (m : gmap Path nat).

Record Heap := mkHeap { objs : gmap nat Obj; next_loc : nat }.

(** Every allocated location is below [next_loc]. *)
Definition heap_wf (h : Heap) : Prop := forall l, l ∈ dom (objs h) -> l < next_loc h.

(** A match set object: [_file_size] and the location of [_file_list]. *)
Record MatchSetObj := mkMatchSetObj { obj_file_size : Z; obj_file_list : nat }.

(** A [JDupesOutput] object: its match sets and the location of
    [_folder_cache]. *)
Record OutputObj := mkOutputObj { obj_match_sets : list MatchSetObj; obj_folder_cache : nat }.

(** The state and failure monad of the heap model; failure is a raised
    exception. *)
Definition M (A : Type) : Type := Heap -> option (A * Heap).

Definition mret {A} (a : A) : M A := fun h => Some (a, h).
Definition mbind {A B} (m : M A) (f : A -> M B) : M B :=
  fun h => match m h with Some (a, h') => f a h' | None => None end.
Definition mfail {A} : M A := fun _ => None.

Notation "x <: m ;; k" := (mbind m (fun x => k)) (at level 100, m at next level, right associativity).

Definition load (l : nat) : M Obj :=
  fun h => match objs h !! l with Some v => Some (v, h) | None => None end.

Definition store (l : nat) (v : Obj) : M unit :=
  fun h => Some (tt, mkHeap (<[l := v]> (objs h)) (next_loc h)).

Definition alloc (v : Obj) : M nat :=
  fun h => Some (next_loc h, mkHeap (<[next_loc h := v]> (objs h)) (S (next_loc h))).

Definition lift {A} (x : option A) : M A :=
  fun h => match x with Some a => Some (a, h) | None => None end.

Fixpoint mfoldl {A B} (f : A -> B -> M A) (acc : A) (l : list B) : M A :=
  match l with
  | [] => mret acc
  | x :: l' => acc' <: f acc x;; mfoldl f acc' l'
  end.

Definition load_path_list (l : nat) : M (list Path) :=
  v <: load l;; match v with OPathList xs => mret xs | _ => mfail end.
Definition load_path_set (l : nat) : M (list Path) :=
  v <: load l;; match v with OPathSet xs => mret xs | _ => mfail end.
Definition load_id_set (l : nat) : M (list nat) :=
  v <: load l;; match v with OIdSet xs => mret xs | _ => mfail end.
Definition load_dict (l : nat) : M (gmap Path nat) :=
  v <: load l;; match v with ODict m => mret m | _ => mfail end.

(** [s.remove(x)] on a set object; a missing element raises [KeyError]. *)
Definition set_remove (l : nat) (x : Path) : M unit :=
  xs <: load_path_set l;;
  if decide (x ∈ xs) then store l (OPathSet (filter (fun y => y <> x) xs)) else mfail.

(** The body of the inner loop of [duplicates_in_folder] on the heap. *)
Definition dup_file_step_st (folder : Path) (ms : MatchSetObj)
    (result : list DuplicateInFolder) (file_path : Path) : M (list DuplicateInFolder) :=
  if decide (parent file_path = folder) then
    fl <: load_path_list (obj_file_list ms);;
    copy_loc <: alloc (OPathList fl);;                (* file_list.copy() *)
    copy <: load_path_list copy_loc;;
    set_loc <: alloc (OPathSet (remove_dups copy));;  (* set(...) *)
    _ <: set_remove set_loc file_path;;
    other_files <: load_path_set set_loc;;
    let other_files_frozen : gset Path := list_to_set other_files in
    mret (set_add (mkDuplicateInFolder file_path other_files_frozen (obj_file_size ms)) result)
  else mret result.

Definition dup_set_step_st (mss : list MatchSetObj) (folder : Path)
    (result : list DuplicateInFolder) (i : nat) : M (list DuplicateInFolder) :=
  ms <: lift (mss !! i);;
  fl <: load_path_list (obj_file_list ms);;
  mfoldl (dup_file_step_st folder ms) result fl.

(** [JDupesOutput.duplicates_in_folder] on the heap. *)
Definition duplicates_in_folder_st (o : OutputObj) (folder : Path)
  : M (list DuplicateInFolder) :=
  cache <: load_dict (obj_folder_cache o);;
  set_loc <: lift (cache !! folder);;
  s <: load_id_set set_loc;;
  mfoldl (dup_set_step_st (obj_match_sets o) folder) [] s.

(** The value of a [JDupesOutput] object in a heap, when its match sets'
    lists and its cache are all present. *)
Definition read_match_set (h : Heap) (ms : MatchSetObj) : option MatchSet :=
  match objs h !! obj_file_list ms with
  | Some (OPathList fl) => Some (mkMatchSet (obj_file_size ms) fl)
  | _ => None
  end.

Definition read_id_set (h : Heap) (l : nat) : option (list nat) :=
  match objs h !! l with Some (OIdSet s) => Some s | _ => None end.

Definition read_output (h : Heap) (o : OutputObj) : option JDupesOutput :=
  mss ← mapM (read_match_set h) (obj_match_sets o);
  cache ← (match objs h !! obj_folder_cache o with Some (ODict m) => Some m | _ => None end);
  if decide (map_Forall (fun _ l => is_Some (read_id_set h l)) cache)
  then Some (mkJDupesOutput mss ((fun l => default [] (read_id_set h l)) <$> cache))
  else None.

(* ------------------------------------------------------------------ *)
(** ** Entries of one match set *)

(** The entries [duplicates_in_folder] makes for the match set with identity
    [i]: one per distinct file of it whose parent is [folder] (used to count
    the per-folder rollup). *)
Definition group_entries (mss : list MatchSet) (folder : Path) (i : nat)
  : list DuplicateInFolder :=
  match mss !! i with
  | Some ms =>
      (fun m => mkDuplicateInFolder m (list_to_set (file_list ms) ∖ {[m]}) (file_size ms))
        <$> remove_dups (filter (fun m => parent m = folder) (file_list ms))
  | None => []
  end.

(** The number of distinct files of match set [i] in [folder], times its size. *)
Definition group_share (mss : list MatchSet) (folder : Path) (i : nat) : Z :=
  match mss !! i with
  | Some ms =>
      (Z.of_nat (length (remove_dups (filter (fun m => parent m = folder) (file_list ms))))
       * file_size ms)%Z
  | None => 0%Z
  end.

(* ------------------------------------------------------------------ *)
(** ** Examples: the end-to-end input of the spec *)

Definition p (r : string) (ps : list string) : Path := mkPath r ps.

Definition group_A : MatchSet :=
  mkMatchSet 100 [p "/" ["d1"; "a"]; p "/" ["d1"; "b"]; p "/" ["d2"; "a"]].
Definition group_B : MatchSet :=
  mkMatchSet 50 [p "/" ["d2"; "c"]; p "/" ["d2"; "d"]].
Definition example_output : JDupesOutput := build [group_A; group_B].

(** A report example below the files directory of user [bob]: [d1] holds
    two copies and one other file, [d2] only copies. *)
Definition bob_file (ps : list string) : Path :=
  mkPath "/" (["var"; "www"; "html"; "data"; "bob"; "files"] ++ ps).

Definition report_groups : list MatchSet :=
  [mkMatchSet 100 [bob_file ["d1"; "a"]; bob_file ["d1"; "b"]];
   mkMatchSet 50 [bob_file ["d2"; "c"]; bob_file ["d2"; "d"]]].

Definition report_iterdir (f : Path) : list Path :=
  if decide (f = bob_file ["d1"]) then
    [bob_file ["d1"; "a"]; bob_file ["d1"; "b"]; bob_file ["d1"; "x"]]
  else if decide (f = bob_file ["d2"]) then
    [bob_file ["d2"; "c"]; bob_file ["d2"; "d"]]
  else [].

(** The match-set identities stored in the cache name match sets of the
    output (in Python they are the match-set objects themselves). *)
Definition ids_valid (a : JDupesOutput) : Prop :=
  map_Forall (fun _ s => Forall (fun i => i < length (match_sets a)) s) (folder_cache a).

(** [example_output] laid out in a heap: the two file lists at 0 and 1,
    the cache dict at 2 and its two sets at 3 and 4. *)
Definition example_heap : Heap :=
  mkHeap (<[0 := OPathList (file_list group_A)]> (<[1 := OPathList (file_list group_B)]>
    (<[2 := ODict (<[p "/" ["d1"] := 3]> (<[p "/" ["d2"] := 4]> ∅))]>
    (<[3 := OIdSet [0]]> (<[4 := OIdSet [0; 1]]> ∅))))) 5.

Definition example_output_obj : OutputObj :=
  mkOutputObj [mkMatchSetObj 100 0; mkMatchSetObj 50 1] 2.

(* ------------------------------------------------------------------ *)
(** ** Joining paths, the report file and [urllib.parse.quote] *)

(** [a / b] for two [PurePosixPath]s: an absolute [b] replaces [a]. *)
Definition path_truediv (a b : Path) : Path :=
  if bool_decide (root b = "") then mkPath (root a) (parts a ++ parts b) else b.

(** [Path(a, s)] for a path [a] and a string [s]. *)
Definition path_join (a : Path) (s : string) : Path := path_truediv a (parse_path s).

(** The file [write_to_nextcloud] writes:
    [Path(nextcloud_info.user_file_path, "Duplikate.md")]. *)
Definition report_file_path (user : string) : Path :=
  path_join (user_file_path user) "Duplikate.md".

(** A path as [PurePosixPath] produces it: root [""], ["/"] or ["//"], and
    every part non-empty, not ["."] and free of ["/"]. *)
Definition path_wf (q : Path) : Prop :=
  (root q = "" \/ root q = "/" \/ root q = "//") /\
  Forall (fun x => x <> "" /\ x <> "." /\ "/"%char ∉ list_ascii_of_string x) (parts q).

(** The bytes [quote(s)] (with its default [safe='/']) leaves alone: ASCII
    letters and digits, ["_.-~"] and ["/"]. *)
Definition quote_safe (c : ascii) : bool :=
  let n := nat_of_ascii c in
  bool_decide (48 <= n <= 57 \/ 65 <= n <= 90 \/ 97 <= n <= 122 \/
               c ∈ list_ascii_of_string "_.-~/").

(** The upper-case hex digit of [n < 16]. *)
Definition hex_digit (n : nat) : ascii :=
  default "0"%char (get n "0123456789ABCDEF").

(** [urllib.parse.quote(s)]: a string is taken as the bytes of its UTF-8
    encoding; a safe byte is kept and any other becomes ["%XX"]. *)
Fixpoint py_quote (s : string) : string :=
  match s with
  | EmptyString => EmptyString
  | String c s' =>
      if quote_safe c then String c (py_quote s')
      else String "%" (String (hex_digit (nat_of_ascii c / 16))
                              (String (hex_digit (nat_of_ascii c mod 16)) (py_quote s')))
  end.

(* ------------------------------------------------------------------ *)
(** ** JDupesOutput._get_matchsets *)



(* ================================================================== *)
(** * Properties *)

(* ------------------------------------------------------------------ *)
(** ** Python sets as duplicate-free lists *)

Section SetAdd.
Context {A : Type} `{EqDecision A}.

Lemma elem_of_set_add (x y : A) (s : list A) : y ∈ set_add x s <-> y = x \/ y ∈ s.
Proof. unfold set_add. case_decide; set_solver. Qed.

Lemma set_add_NoDup (x : A) (s : list A) : NoDup s -> NoDup (set_add x s).
Proof.
  unfold set_add. case_decide; [done |]. intros Hs.
  apply NoDup_app. split_and!; [done | set_solver | apply NoDup_singleton].
Qed.

Lemma set_add_idem (x : A) (s : list A) : set_add x (set_add x s) = set_add x s.
Proof.
  unfold set_add. destruct (decide (x ∈ s)).
  - by rewrite decide_True.
  - rewrite decide_True; [done | set_solver].
Qed.

Lemma foldl_set_add_elem {B} (g : B -> A) (l : list B) (s : list A) y :
  y ∈ foldl (fun s b => set_add (g b) s) s l <-> y ∈ s \/ exists b, b ∈ l /\ y = g b.
Proof.
  revert s. induction l as [|b l IH]; intros s; simpl.
  - set_solver.
  - rewrite IH, elem_of_set_add. set_solver.
Qed.

Lemma foldl_set_add_NoDup {B} (g : B -> A) (l : list B) (s : list A) :
  NoDup s -> NoDup (foldl (fun s b => set_add (g b) s) s l).
Proof.
  revert s. induction l as [|b l IH]; intros s Hs; simpl; [done |].
  apply IH, set_add_NoDup, Hs.
Qed.

End SetAdd.

(* ------------------------------------------------------------------ *)
(** ** The folder cache *)

Lemma elem_of_directory_list (ms : MatchSet) (f : Path) :
  f ∈ directory_list ms <-> exists m, m ∈ file_list ms /\ parent m = f.
Proof. unfold directory_list. rewrite list_elem_of_fmap. naive_solver. Qed.

Lemma cache_add_folder_lookup i r f' f :
  cache_add_folder i r f' !! f =
  if decide (f = f') then Some (set_add i (default [] (r !! f))) else r !! f.
Proof.
  unfold cache_add_folder.
  destruct (r !! f') eqn:E.
  - rewrite E. case_decide; subst.
    + by rewrite lookup_insert_eq, E.
    + by rewrite lookup_insert_ne.
  - rewrite lookup_insert_eq. case_decide; subst.
    + by rewrite lookup_insert_eq, E.
    + by rewrite !lookup_insert_ne.
Qed.

Lemma foldl_cache_add_folder_lookup i r fs f :
  foldl (cache_add_folder i) r fs !! f =
  if decide (f ∈ fs) then Some (set_add i (default [] (r !! f))) else r !! f.
Proof.
  revert r. induction fs as [|f' fs IH]; intros r; cbn [foldl].
  - rewrite decide_False; [done | set_solver].
  - rewrite IH, !cache_add_folder_lookup.
    repeat case_decide; subst; cbn [default]; try unfold id;
      try (by rewrite set_add_idem); try done; set_solver.
Qed.

Lemma cache_loop_elem i mss r f j :
  j ∈ default [] (cache_loop i mss r !! f) <->
  j ∈ default [] (r !! f) \/
  exists k ms, mss !! k = Some ms /\ j = i + k /\ f ∈ directory_list ms.
Proof.
  revert i r. induction mss as [|ms mss IH]; intros i r; cbn [cache_loop].
  - split; [by left |].
    intros [? | (k & ms & Hk & _)]; [done | by rewrite lookup_nil in Hk].
  - rewrite IH, foldl_cache_add_folder_lookup. split.
    + intros [Hj | (k & ms' & Hk & -> & Hf)].
      * case_decide; simpl in Hj.
        -- rewrite elem_of_set_add in Hj. destruct Hj as [-> | Hj].
           ++ right. exists 0, ms. split_and!; [done | lia | done].
           ++ by left.
        -- by left.
      * right. exists (S k), ms'. split_and!; [done | lia | done].
    + intros [Hj | (k & ms' & Hk & -> & Hf)].
      * left. case_decide; [simpl; rewrite elem_of_set_add; by right | done].
      * destruct k as [|k]; simpl in Hk.
        -- injection Hk as <-. left. rewrite decide_True by done. simpl.
           rewrite elem_of_set_add. left; lia.
        -- right. exists k, ms'. split_and!; [done | lia | done].
Qed.

Lemma cache_loop_key i mss r f :
  is_Some (cache_loop i mss r !! f) <->
  is_Some (r !! f) \/ exists k ms, mss !! k = Some ms /\ f ∈ directory_list ms.
Proof.
  revert i r. induction mss as [|ms mss IH]; intros i r; cbn [cache_loop].
  - split; [by left |].
    intros [? | (k & ms & Hk & _)]; [done | by rewrite lookup_nil in Hk].
  - rewrite IH, foldl_cache_add_folder_lookup. split.
    + intros [Hj | (k & ms' & Hk & Hf)].
      * case_decide.
        -- right. exists 0, ms. done.
        -- by left.
      * right. exists (S k), ms'. done.
    + intros [Hj | (k & ms' & Hk & Hf)].
      * left. case_decide; done.
      * destruct k as [|k]; simpl in Hk.
        -- injection Hk as <-. left. by rewrite decide_True.
        -- right. exists k, ms'. done.
Qed.

Lemma cache_loop_NoDup i mss r :
  (forall f s, r !! f = Some s -> NoDup s) ->
  forall f s, cache_loop i mss r !! f = Some s -> NoDup s.
Proof.
  revert i r. induction mss as [|ms mss IH]; intros i r Hr; cbn [cache_loop]; [done |].
  apply IH. intros f s. rewrite foldl_cache_add_folder_lookup.
  case_decide; [| apply Hr]. intros [= <-]. apply set_add_NoDup.
  destruct (r !! f) eqn:E; simpl; [by eapply Hr | constructor].
Qed.

Lemma create_folder_cache_elem mss f i :
  i ∈ default [] (create_folder_cache mss !! f) <->
  exists ms, mss !! i = Some ms /\ exists m, m ∈ file_list ms /\ parent m = f.
Proof.
  unfold create_folder_cache. rewrite cache_loop_elem, lookup_empty. simpl.
  setoid_rewrite elem_of_directory_list. split.
  - intros [Hi | (k & ms & Hk & -> & Hf)]; [set_solver | eauto].
  - intros (ms & Hms & Hf). right. exists i, ms. eauto.
Qed.

Lemma create_folder_cache_key mss f :
  is_Some (create_folder_cache mss !! f) <->
  exists i ms, mss !! i = Some ms /\ exists m, m ∈ file_list ms /\ parent m = f.
Proof.
  unfold create_folder_cache. rewrite cache_loop_key, lookup_empty.
  setoid_rewrite elem_of_directory_list. split.
  - intros [[? Hi] | H]; [done | exact H].
  - intros H. by right.
Qed.

Lemma create_folder_cache_NoDup mss f s :
  create_folder_cache mss !! f = Some s -> NoDup s.
Proof.
  apply cache_loop_NoDup. intros f' s'. by rewrite lookup_empty.
Qed.

(* ------------------------------------------------------------------ *)
(** ** duplicates_in_folder *)

Lemma dup_file_loop_elem folder ms res fl e :
  e ∈ foldl (dup_file_step folder ms) res fl <->
  e ∈ res \/
  exists m, m ∈ fl /\ parent m = folder /\
    e = mkDuplicateInFolder m (list_to_set (file_list ms) ∖ {[m]}) (file_size ms).
Proof.
  revert res. induction fl as [|m fl IH]; intros res; simpl.
  - split; [by left | intros [He | (m & Hm & _)]; [done | set_solver]].
  - rewrite IH. unfold dup_file_step. setoid_rewrite elem_of_cons.
    case_decide as Hp.
    + rewrite elem_of_set_add. split.
      * intros [[-> | He] | (m' & Hm' & Hp' & ->)]; [right; exists m; auto | by left |].
        right. exists m'. auto.
      * intros [He | (m' & [-> | Hm'] & Hp' & ->)]; [by left; right | by left; left |].
        right. exists m'. auto.
    + split.
      * intros [He | (m' & Hm' & Hp' & ->)]; [by left |]. right. exists m'. auto.
      * intros [He | (m' & [-> | Hm'] & Hp' & ->)]; [by left | done |].
        right. exists m'. auto.
Qed.

Lemma dup_file_loop_NoDup folder ms res fl :
  NoDup res -> NoDup (foldl (dup_file_step folder ms) res fl).
Proof.
  revert res. induction fl as [|m fl IH]; intros res Hres; simpl; [done |].
  apply IH. unfold dup_file_step. case_decide; [by apply set_add_NoDup | done].
Qed.

Lemma dup_set_loop_elem mss folder res s e :
  e ∈ foldl (dup_set_step mss folder) res s <->
  e ∈ res \/
  exists i ms m, i ∈ s /\ mss !! i = Some ms /\ m ∈ file_list ms /\ parent m = folder /\
    e = mkDuplicateInFolder m (list_to_set (file_list ms) ∖ {[m]}) (file_size ms).
Proof.
  revert res. induction s as [|i s IH]; intros res; simpl.
  - set_solver.
  - rewrite IH. unfold dup_set_step. destruct (mss !! i) as [ms|] eqn:E.
    + rewrite dup_file_loop_elem. split.
      * intros [[He | (m & Hm & Hp & ->)] | (i' & ms' & m & Hi' & Hms' & Hm & Hp & ->)].
        -- by left.
        -- right. exists i, ms, m. set_solver.
        -- right. exists i', ms', m. set_solver.
      * intros [He | (i' & ms' & m & Hi' & Hms' & Hm & Hp & ->)]; [by left; left |].
        rewrite elem_of_cons in Hi'. destruct Hi' as [<- | Hi'].
        -- left; right. rewrite E in Hms'. injection Hms' as <-. eauto.
        -- right. exists i', ms', m. eauto.
    + split.
      * intros [He | (i' & ms' & m & Hi' & Hms' & Hm & Hp & ->)]; [by left |].
        right. exists i', ms', m. set_solver.
      * intros [He | (i' & ms' & m & Hi' & Hms' & Hm & Hp & ->)]; [by left |].
        rewrite elem_of_cons in Hi'. destruct Hi' as [<- | Hi']; [congruence |].
        right. exists i', ms', m. eauto.
Qed.

Lemma dup_set_loop_NoDup mss folder res s :
  NoDup res -> NoDup (foldl (dup_set_step mss folder) res s).
Proof.
  revert res. induction s as [|i s IH]; intros res Hres; simpl; [done |].
  apply IH. unfold dup_set_step. destruct (mss !! i); [by apply dup_file_loop_NoDup | done].
Qed.

(** The entries of [duplicates_in_folder] over an arbitrary cache. *)
Lemma duplicates_in_folder_elem o folder groups :
  folder_cache o !! folder = Some groups ->
  exists res, duplicates_in_folder o folder = Some res /\ NoDup res /\
  forall e, e ∈ res <->
    exists i ms m, i ∈ groups /\ match_sets o !! i = Some ms /\ m ∈ file_list ms /\
      parent m = folder /\
      e = mkDuplicateInFolder m (list_to_set (file_list ms) ∖ {[m]}) (file_size ms).
Proof.
  intros Hg. unfold duplicates_in_folder. rewrite Hg.
  eexists; split_and!; [done | apply dup_set_loop_NoDup; constructor |].
  intros e. rewrite dup_set_loop_elem. set_solver.
Qed.

(* ------------------------------------------------------------------ *)
(** ** folders_with_duplicates *)

Lemma folders_loop_elem (acc : list Path) (mss : list MatchSet) f :
  f ∈ foldl (fun result ms =>
               foldl (fun result file_path => set_add (parent file_path) result)
                     result (file_list ms)) acc mss <->
  f ∈ acc \/ exists ms m, ms ∈ mss /\ m ∈ file_list ms /\ parent m = f.
Proof.
  revert acc. induction mss as [|ms mss IH]; intros acc; simpl.
  - split; [by left | intros [? | (ms & m & Hms & _)]; [done | set_solver]].
  - rewrite IH, (foldl_set_add_elem parent). setoid_rewrite elem_of_cons. split.
    + intros [[Hf | (m & Hm & ->)] | (ms' & m & Hms' & Hm & <-)].
      * by left.
      * right. exists ms, m. auto.
      * right. exists ms', m. auto.
    + intros [Hf | (ms' & m & [-> | Hms'] & Hm & <-)].
      * by left; left.
      * left; right. exists m. auto.
      * right. exists ms', m. auto.
Qed.

Lemma folders_loop_NoDup (acc : list Path) (mss : list MatchSet) :
  NoDup acc ->
  NoDup (foldl (fun result ms =>
                  foldl (fun result file_path => set_add (parent file_path) result)
                        result (file_list ms)) acc mss).
Proof.
  revert acc. induction mss as [|ms mss IH]; intros acc Hacc; simpl; [done |].
  apply IH, (foldl_set_add_NoDup parent), Hacc.
Qed.

Lemma elem_of_folders_with_duplicates o f :
  f ∈ folders_with_duplicates o <->
  exists ms m, ms ∈ match_sets o /\ m ∈ file_list ms /\ parent m = f.
Proof.
  unfold folders_with_duplicates. rewrite folders_loop_elem. set_solver.
Qed.

Lemma folders_with_duplicates_NoDup o : NoDup (folders_with_duplicates o).
Proof. apply folders_loop_NoDup. constructor. Qed.

Lemma build_key_iff mss f :
  f ∈ dom (folder_cache (build mss)) <->
  exists ms m, ms ∈ mss /\ m ∈ file_list ms /\ parent m = f.
Proof.
  rewrite elem_of_dom. cbn [folder_cache build]. rewrite create_folder_cache_key.
  split.
  - intros (i & ms & Hi & Hm). exists ms. destruct Hm as (m & ? & ?).
    exists m. split_and!; [by eapply list_elem_of_lookup_2 | done | done].
  - intros (ms & m & Hms & Hm & Hp). apply list_elem_of_lookup in Hms as [i Hi].
    exists i, ms. eauto.
Qed.

(* ------------------------------------------------------------------ *)
(** ** Claims on the index and the analyzer *)

(** Claim C3: building the index associates a folder with a match set at
    most once (the set of a folder has no repeated match set, even when the
    match set has several files there), and the set of an indexed folder [f]
    holds exactly the match sets with a file whose parent is [f]. *)
Theorem folder_cache_lookup (mss : list MatchSet) (f : Path) (groups : list nat) :
  folder_cache (build mss) !! f = Some groups ->
  NoDup groups /\
  forall i, i ∈ groups <->
    exists ms, mss !! i = Some ms /\ exists m, m ∈ file_list ms /\ parent m = f.
Proof.
  cbn [folder_cache build]. intros Hg. split.
  - by eapply create_folder_cache_NoDup.
  - intros i. rewrite <- create_folder_cache_elem, Hg. done.
Qed.

(** Claim C1: for a folder present in the index, [duplicates_in_folder]
    returns a set (no repeated entry) holding one entry per pair of an
    indexed match set and one of its files whose parent is the folder, with
    that file, the match set's files minus that file and the match set's
    size; so no entry lists its own file among the other copies, and the
    file together with the other copies is the file set of an indexed match
    set with a file in the folder. *)
Theorem duplicates_in_folder_entries (mss : list MatchSet) (folder : Path) (groups : list nat) :
  folder_cache (build mss) !! folder = Some groups ->
  exists res, duplicates_in_folder (build mss) folder = Some res /\ NoDup res /\
  (forall e, e ∈ res <->
     exists i ms m, i ∈ groups /\ mss !! i = Some ms /\ m ∈ file_list ms /\
       parent m = folder /\
       e = mkDuplicateInFolder m (list_to_set (file_list ms) ∖ {[m]}) (file_size ms)) /\
  (forall e, e ∈ res ->
     (in_duplicate_folder e ∉ other_paths e) /\
     exists i ms, i ∈ groups /\ mss !! i = Some ms /\
       {[in_duplicate_folder e]} ∪ other_paths e = list_to_set (file_list ms) /\
       exists m, m ∈ file_list ms /\ parent m = folder).
Proof.
  intros Hg. destruct (duplicates_in_folder_elem (build mss) folder groups Hg)
    as (res & Hres & Hnd & Helem).
  exists res. split_and!; [done | done | exact Helem |].
  intros e He. apply Helem in He as (i & ms & m & Hi & Hms & Hm & Hp & ->).
  cbn [in_duplicate_folder other_paths]. split.
  - rewrite elem_of_difference, elem_of_singleton. tauto.
  - exists i, ms. split_and!; [done | done | | eauto].
    apply set_eq. intros x.
    rewrite elem_of_union, elem_of_difference, !elem_of_list_to_set, elem_of_singleton.
    destruct (decide (x = m)); subst; tauto.
Qed.

(** Claim C5: looking up a folder that no match set has a file in fails
    (the [KeyError] of [self._folder_cache[folder]]) instead of returning an
    empty set of entries. *)
Theorem duplicates_in_folder_unindexed (mss : list MatchSet) (f : Path) :
  (forall ms m, ms ∈ mss -> m ∈ file_list ms -> parent m <> f) ->
  duplicates_in_folder (build mss) f = None.
Proof.
  intros Hno. unfold duplicates_in_folder.
  destruct (folder_cache (build mss) !! f) eqn:E; [| done].
  exfalso. assert (Hd : f ∈ dom (folder_cache (build mss))) by (apply elem_of_dom; eauto).
  apply build_key_iff in Hd as (ms & m & Hms & Hm & Hp). by apply (Hno ms m).
Qed.

(** Claim C9: the folders of [folders_with_duplicates] are exactly the keys
    of the folder cache, so [duplicates_in_folder] never raises its
    [KeyError] for them and the first loop of [to_markdown] never fails. *)
Theorem folders_with_duplicates_indexed (mss : list MatchSet) :
  (forall f, f ∈ folders_with_duplicates (build mss) <-> f ∈ dom (folder_cache (build mss))) /\
  (forall f, f ∈ folders_with_duplicates (build mss) ->
     is_Some (duplicates_in_folder (build mss) f)) /\
  (forall iterdir : Path -> list Path,
     is_Some (mapM (folder_row iterdir (build mss)) (folders_with_duplicates (build mss)))).
Proof.
  assert (Hkey : forall f, f ∈ folders_with_duplicates (build mss) <->
                           f ∈ dom (folder_cache (build mss))).
  { intros f. rewrite elem_of_folders_with_duplicates, build_key_iff. done. }
  assert (Hdup : forall f, f ∈ folders_with_duplicates (build mss) ->
                           is_Some (duplicates_in_folder (build mss) f)).
  { intros f Hf. apply Hkey, elem_of_dom in Hf as [s Hs].
    unfold duplicates_in_folder. rewrite Hs. eauto. }
  split_and!; [exact Hkey | exact Hdup |].
  intros iterdir. apply mapM_is_Some, Forall_forall. intros f Hf.
  destruct (Hdup f Hf) as [res Hres].
  unfold folder_row. simpl. rewrite Hres. simpl. eauto.
Qed.

(** The index lookup on the example: [/d1] holds two files of [group_A]. *)
Lemma folder_cache_lookup_witness :
  folder_cache (build [group_A; group_B]) !! p "/" ["d1"] = Some [0] /\
  NoDup [0] /\
  forall i, i ∈ [0] <->
    exists ms, [group_A; group_B] !! i = Some ms /\
      exists m, m ∈ file_list ms /\ parent m = p "/" ["d1"].
Proof.
  assert (H : folder_cache (build [group_A; group_B]) !! p "/" ["d1"] = Some [0])
    by (vm_compute; reflexivity).
  split; [exact H | exact (folder_cache_lookup [group_A; group_B] (p "/" ["d1"]) [0] H)].
Defined.

(** The analyzer on the example folder [/d1]. *)
Lemma duplicates_in_folder_entries_witness :
  folder_cache (build [group_A; group_B]) !! p "/" ["d1"] = Some [0] /\
  exists res, duplicates_in_folder (build [group_A; group_B]) (p "/" ["d1"]) = Some res /\
  NoDup res /\
  (forall e, e ∈ res <->
     exists i ms m, i ∈ [0] /\ [group_A; group_B] !! i = Some ms /\ m ∈ file_list ms /\
       parent m = p "/" ["d1"] /\
       e = mkDuplicateInFolder m (list_to_set (file_list ms) ∖ {[m]}) (file_size ms)) /\
  (forall e, e ∈ res ->
     (in_duplicate_folder e ∉ other_paths e) /\
     exists i ms, i ∈ [0] /\ [group_A; group_B] !! i = Some ms /\
       {[in_duplicate_folder e]} ∪ other_paths e = list_to_set (file_list ms) /\
       exists m, m ∈ file_list ms /\ parent m = p "/" ["d1"]).
Proof.
  assert (H : folder_cache (build [group_A; group_B]) !! p "/" ["d1"] = Some [0])
    by (vm_compute; reflexivity).
  split; [exact H |].
  exact (duplicates_in_folder_entries [group_A; group_B] (p "/" ["d1"]) [0] H).
Defined.

(** A folder no example match set has a file in. *)
Lemma duplicates_in_folder_unindexed_witness :
  (forall ms m, ms ∈ [group_A; group_B] -> m ∈ file_list ms -> parent m <> p "/" ["d3"]) /\
  duplicates_in_folder (build [group_A; group_B]) (p "/" ["d3"]) = None.
Proof.
  assert (H : forall ms m, ms ∈ [group_A; group_B] -> m ∈ file_list ms ->
                           parent m <> p "/" ["d3"]).
  { intros ms m Hms Hm. apply list_elem_of_In in Hms, Hm.
    destruct Hms as [<- | [<- | []]]; simpl in Hm;
      repeat destruct Hm as [<- | Hm]; try contradiction; vm_compute; congruence. }
  split; [exact H | exact (duplicates_in_folder_unindexed _ _ H)].
Defined.

(* ------------------------------------------------------------------ *)
(** ** The per-folder rollup *)

Lemma sum_sizes_app l1 l2 : sum_sizes (l1 ++ l2) = (sum_sizes l1 + sum_sizes l2)%Z.
Proof. induction l1 as [|d l1 IH]; simpl; [done | rewrite IH; lia]. Qed.

Lemma sum_sizes_perm l1 l2 : l1 ≡ₚ l2 -> sum_sizes l1 = sum_sizes l2.
Proof. induction 1; simpl; lia. Qed.

Lemma sum_sizes_group_entries mss folder i :
  sum_sizes (group_entries mss folder i) = group_share mss folder i.
Proof.
  unfold group_entries, group_share. destruct (mss !! i) as [ms|]; [| done].
  generalize (remove_dups (filter (fun m => parent m = folder) (file_list ms))) as l.
  induction l as [|m l IH]; [done |].
  rewrite fmap_cons. cbn [length]. rewrite Nat2Z.inj_succ, Z.mul_succ_l, <- IH.
  unfold sum_sizes. cbn [foldr size]. lia.
Qed.

Lemma elem_of_group_entries mss folder i e :
  e ∈ group_entries mss folder i <->
  exists ms m, mss !! i = Some ms /\ m ∈ file_list ms /\ parent m = folder /\
    e = mkDuplicateInFolder m (list_to_set (file_list ms) ∖ {[m]}) (file_size ms).
Proof.
  unfold group_entries. destruct (mss !! i) as [ms|].
  - rewrite list_elem_of_fmap. setoid_rewrite elem_of_remove_dups.
    setoid_rewrite list_elem_of_filter. split.
    + intros (m & -> & Hp & Hm). exists ms, m. auto.
    + intros (ms' & m & [= <-] & Hm & Hp & ->). exists m. auto.
  - split; [set_solver | intros (ms & m & [=] & _)].
Qed.

Lemma group_entries_NoDup mss folder i : NoDup (group_entries mss folder i).
Proof.
  unfold group_entries. destruct (mss !! i) as [ms|]; [| constructor].
  apply NoDup_fmap_2; [| apply NoDup_remove_dups].
  intros m1 m2 [= ->]. done.
Qed.

(** With no file in two match sets, the entries of the indexed match sets
    are all different. *)
Lemma concat_group_entries_NoDup mss folder groups :
  (forall i j msi msj m, mss !! i = Some msi -> mss !! j = Some msj ->
     m ∈ file_list msi -> m ∈ file_list msj -> i = j) ->
  NoDup groups ->
  NoDup (concat (group_entries mss folder <$> groups)).
Proof.
  intros Hdisj. induction 1 as [|i groups Hi Hnd IH]; simpl; [constructor |].
  apply NoDup_app. split_and!; [apply group_entries_NoDup | | exact IH].
  intros e He1 He2. apply list_elem_of_In in He2. apply in_concat in He2
    as (l & Hl & He2). apply list_elem_of_In in Hl, He2.
  apply list_elem_of_fmap in Hl as (j & -> & Hj).
  apply elem_of_group_entries in He1 as (ms & m & Hms & Hm & _ & ->).
  apply elem_of_group_entries in He2 as (ms' & m' & Hms' & Hm' & _ & He).
  injection He as -> _ _. assert (i = j) as -> by eauto. done.
Qed.

Lemma elem_of_concat_group_entries mss folder groups e :
  e ∈ concat (group_entries mss folder <$> groups) <->
  exists i, i ∈ groups /\ e ∈ group_entries mss folder i.
Proof.
  rewrite list_elem_of_In, in_concat. split.
  - intros (l & Hl & He). apply list_elem_of_In in Hl, He.
    apply list_elem_of_fmap in Hl as (i & -> & Hi). eauto.
  - intros (i & Hi & He). exists (group_entries mss folder i).
    split; apply list_elem_of_In; [apply list_elem_of_fmap; eauto | done].
Qed.

Lemma sum_sizes_concat_group_entries mss folder groups :
  sum_sizes (concat (group_entries mss folder <$> groups)) =
  foldr (fun i acc => group_share mss folder i + acc)%Z 0%Z groups.
Proof.
  induction groups as [|i groups IH]; [done |].
  rewrite fmap_cons. cbn [concat foldr].
  rewrite sum_sizes_app, sum_sizes_group_entries, IH. done.
Qed.

(** Claim C2: the rollup line of a folder's section shows [humansize] of the
    sum of [size] over the entries [duplicates_in_folder] returns for the
    folder.  Each file of an indexed match set in the folder has its own
    entry, so when no file is in two match sets the sum is, over the
    indexed match sets, the number of their files in the folder times their
    size.  On the example of the spec the rollup of [/d2] is [200]. *)
Theorem folder_rollup_per_entry :
  (forall (user : string) (is_dir : Path -> bool) (quote : string -> string)
          (domain : string) (mss : list MatchSet) (r : FolderRow) (sec : list string)
          (groups : list nat),
     folder_cache (build mss) !! row_folder r = Some groups ->
     folder_section user is_dir quote domain (build mss) r = Some sec ->
     exists res hs,
       duplicates_in_folder (build mss) (row_folder r) = Some res /\
       humansize (sum_sizes res) = Some hs /\
       sec !! 1 = Some ("Die Duplikate in diesem Ordner sind " +:+ hs +:+ " groß  ") /\
       (forall i ms m, i ∈ groups -> mss !! i = Some ms -> m ∈ file_list ms ->
          parent m = row_folder r ->
          mkDuplicateInFolder m (list_to_set (file_list ms) ∖ {[m]}) (file_size ms) ∈ res) /\
       ((forall i j msi msj m, mss !! i = Some msi -> mss !! j = Some msj ->
           m ∈ file_list msi -> m ∈ file_list msj -> i = j) ->
        sum_sizes res =
        foldr (fun i acc => group_share mss (row_folder r) i + acc)%Z 0%Z groups)) /\
  (exists res, duplicates_in_folder example_output (p "/" ["d2"]) = Some res /\
     sum_sizes res = 200%Z).
Proof.
  split; [| eexists; split; [vm_compute; reflexivity | vm_compute; reflexivity]].
  intros user is_dir quote domain mss r sec groups Hg Hsec.
  destruct (duplicates_in_folder_elem (build mss) (row_folder r) groups Hg)
    as (res & Hres & Hnd & Helem).
  cbn [match_sets build] in Helem.
  unfold folder_section in Hsec. rewrite Hres in Hsec. simpl in Hsec.
  destruct (humansize (sum_sizes res)) as [hs|] eqn:Ehs; [| discriminate]. simpl in Hsec.
  destruct (mapM _ (row_duplicates r)); [| discriminate]. simpl in Hsec.
  destruct (mapM _ (row_not_duplicates r)); [| discriminate]. simpl in Hsec.
  injection Hsec as <-.
  exists res, hs. split_and!; [done | done | done | |].
  - intros i ms m Hi Hms Hm Hp. apply Helem. exists i, ms, m. auto.
  - intros Hdisj. rewrite <- sum_sizes_concat_group_entries.
    apply sum_sizes_perm, NoDup_Permutation; [done | |].
    + apply concat_group_entries_NoDup; [done |].
      eapply create_folder_cache_NoDup, Hg.
    + intros e. rewrite Helem, elem_of_concat_group_entries.
      setoid_rewrite elem_of_group_entries. naive_solver.
Qed.

(** The rollup section of [/d2] on the example input. *)
Lemma folder_rollup_per_entry_witness :
  exists sec,
  folder_cache (build [group_A; group_B]) !! row_folder (mkFolderRow (p "/" ["d2"]) [] []) =
    Some [0; 1] /\
  folder_section "u" (fun _ => false) (fun s => s) "https://cloud"
    (build [group_A; group_B]) (mkFolderRow (p "/" ["d2"]) [] []) = Some sec /\
  exists res hs,
    duplicates_in_folder (build [group_A; group_B]) (p "/" ["d2"]) = Some res /\
    humansize (sum_sizes res) = Some hs /\
    sec !! 1 = Some ("Die Duplikate in diesem Ordner sind " +:+ hs +:+ " groß  ") /\
    (forall i ms m, i ∈ [0; 1] -> [group_A; group_B] !! i = Some ms -> m ∈ file_list ms ->
       parent m = p "/" ["d2"] ->
       mkDuplicateInFolder m (list_to_set (file_list ms) ∖ {[m]}) (file_size ms) ∈ res) /\
    ((forall i j msi msj m, [group_A; group_B] !! i = Some msi ->
        [group_A; group_B] !! j = Some msj ->
        m ∈ file_list msi -> m ∈ file_list msj -> i = j) ->
     sum_sizes res =
     foldr (fun i acc => group_share [group_A; group_B] (p "/" ["d2"]) i + acc)%Z 0%Z [0; 1]).
Proof.
  assert (H1 : folder_cache (build [group_A; group_B])
                 !! row_folder (mkFolderRow (p "/" ["d2"]) [] []) = Some [0; 1])
    by (vm_compute; reflexivity).
  destruct (folder_section "u" (fun _ => false) (fun s => s) "https://cloud"
              (build [group_A; group_B]) (mkFolderRow (p "/" ["d2"]) [] []))
    as [sec|] eqn:H2; [| vm_compute in H2; discriminate].
  exists sec. split; [exact H1 |]. split; [reflexivity |].
  exact (proj1 folder_rollup_per_entry "u" (fun _ => false) (fun s => s) "https://cloud"
           [group_A; group_B] (mkFolderRow (p "/" ["d2"]) [] []) sec [0; 1] H1 H2).
Defined.

(* ------------------------------------------------------------------ *)
(** ** The order of the report's sections *)

Definition row_le (r1 r2 : FolderRow) : Prop := row_key r1 <= row_key r2.

Lemma insert_row_perm r rs : insert_row r rs ≡ₚ r :: rs.
Proof.
  induction rs as [|r' rs IH]; simpl; [done |].
  case_bool_decide; [done |]. rewrite IH. apply Permutation_swap.
Qed.

Lemma sort_rows_perm rs : sort_rows rs ≡ₚ rs.
Proof.
  unfold sort_rows. assert (H : forall acc, foldl (fun acc r => insert_row r acc) acc rs ≡ₚ acc ++ rs).
  { induction rs as [|r rs IH]; intros acc; simpl; [by rewrite app_nil_r |].
    rewrite IH, insert_row_perm. simpl. apply Permutation_middle. }
  by rewrite H.
Qed.

Lemma insert_row_HdRel r r0 rs :
  HdRel row_le r0 rs -> row_le r0 r -> HdRel row_le r0 (insert_row r rs).
Proof.
  destruct rs as [|r' rs]; simpl; intros Hhd Hle; [by constructor |].
  case_bool_decide; constructor; [done |]. by inversion Hhd.
Qed.

Lemma insert_row_sorted r rs : Sorted row_le rs -> Sorted row_le (insert_row r rs).
Proof.
  induction rs as [|r' rs IH]; simpl; intros Hs.
  - repeat constructor.
  - apply Sorted_inv in Hs as [Hs Hhd]. case_bool_decide as Hlt.
    + constructor; [constructor; [done | done] | constructor; unfold row_le; lia].
    + constructor; [by apply IH | apply insert_row_HdRel; [done | unfold row_le; lia]].
Qed.

Lemma sort_rows_sorted rs : Sorted row_le (sort_rows rs).
Proof.
  unfold sort_rows. assert (H : forall acc, Sorted row_le acc ->
                                 Sorted row_le (foldl (fun acc r => insert_row r acc) acc rs)).
  { induction rs as [|r rs IH]; intros acc Hacc; simpl; [done |].
    apply IH, insert_row_sorted, Hacc. }
  apply H. constructor.
Qed.

Lemma folder_section_shape user is_dir quote domain o r sec :
  folder_section user is_dir quote domain o r = Some sec ->
  sec !! 0 = Some ("## Ordner mit Duplikaten: " +:+ create_link user is_dir quote domain (row_folder r)) /\
  (sec !! 2 = Some pure_duplicates_marker <-> row_not_duplicates r = []).
Proof.
  unfold folder_section. intros Hsec.
  destruct (duplicates_in_folder o (row_folder r)); [| discriminate]. simpl in Hsec.
  destruct (humansize _); [| discriminate]. simpl in Hsec.
  destruct (mapM _ (row_duplicates r)); [| discriminate]. simpl in Hsec.
  destruct (mapM _ (row_not_duplicates r)); [| discriminate]. simpl in Hsec.
  injection Hsec as <-. split; [done |].
  destruct (row_not_duplicates r) as [|x xs]; simpl.
  - split; [done | intros _]. reflexivity.
  - split; [discriminate | done].
Qed.

Lemma to_markdown_Some user is_dir iterdir quote domain o s :
  to_markdown user is_dir iterdir quote domain o = Some s ->
  exists rows header sections,
    mapM (folder_row iterdir o) (folders_with_duplicates o) = Some rows /\
    header_lines user o = Some header /\
    s = join newline (header ++ concat sections) /\
    mapM (folder_section user is_dir quote domain o) (sort_rows rows) = Some sections.
Proof.
  unfold to_markdown. intros Hs.
  destruct (mapM (folder_row iterdir o) _) as [rows|] eqn:Erows; [| discriminate].
  simpl in Hs. destruct (header_lines user o) as [header|] eqn:Eh; [| discriminate].
  simpl in Hs. destruct (mapM _ (sort_rows rows)) as [sections|] eqn:Es; [| discriminate].
  simpl in Hs. injection Hs as <-. eauto 10.
Qed.

(** Claim C4: the report is the header followed by one section per row of
    [duplicate_folders]; the rows are those of the folders with duplicates,
    in ascending order of their number of non-duplicated files; each
    section starts with the folder's heading, and its third line is the
    pure-duplicate marker exactly when the folder's list of non-duplicated
    files is empty. *)
Theorem to_markdown_sections_sorted user is_dir iterdir quote domain o s :
  to_markdown user is_dir iterdir quote domain o = Some s ->
  exists rows header sections,
    mapM (folder_row iterdir o) (folders_with_duplicates o) = Some rows /\
    header_lines user o = Some header /\
    s = join newline (header ++ concat sections) /\
    sort_rows rows ≡ₚ rows /\
    Sorted (fun r1 r2 => length (row_not_duplicates r1) <= length (row_not_duplicates r2))
      (sort_rows rows) /\
    Forall2 (fun r sec =>
               folder_section user is_dir quote domain o r = Some sec /\
               sec !! 0 = Some ("## Ordner mit Duplikaten: " +:+
                                create_link user is_dir quote domain (row_folder r)) /\
               (sec !! 2 = Some pure_duplicates_marker <-> row_not_duplicates r = []))
      (sort_rows rows) sections.
Proof.
  intros Hs. apply to_markdown_Some in Hs as (rows & header & sections & Erows & Eh & -> & Es).
  exists rows, header, sections. split_and!; [done | done | done | apply sort_rows_perm | |].
  - apply sort_rows_sorted.
  - apply mapM_Some_1 in Es. eapply Forall2_impl; [exact Es |].
    intros r sec Hsec. split; [exact Hsec |]. exact (folder_section_shape _ _ _ _ _ _ _ Hsec).
Qed.

(** The report of the example: [d2] (no other file) comes before [d1]. *)
Lemma to_markdown_sections_sorted_witness :
  exists s,
  to_markdown "bob" (fun _ => false) report_iterdir (fun s => s) "https://cloud"
    (build report_groups) = Some s /\
  exists rows header sections,
    mapM (folder_row report_iterdir (build report_groups))
         (folders_with_duplicates (build report_groups)) = Some rows /\
    header_lines "bob" (build report_groups) = Some header /\
    s = join newline (header ++ concat sections) /\
    sort_rows rows ≡ₚ rows /\
    Sorted (fun r1 r2 => length (row_not_duplicates r1) <= length (row_not_duplicates r2))
      (sort_rows rows) /\
    Forall2 (fun r sec =>
               folder_section "bob" (fun _ => false) (fun s => s) "https://cloud"
                 (build report_groups) r = Some sec /\
               sec !! 0 = Some ("## Ordner mit Duplikaten: " +:+
                                create_link "bob" (fun _ => false) (fun s => s) "https://cloud"
                                  (row_folder r)) /\
               (sec !! 2 = Some pure_duplicates_marker <-> row_not_duplicates r = []))
      (sort_rows rows) sections.
Proof.
  destruct (to_markdown "bob" (fun _ => false) report_iterdir (fun s => s) "https://cloud"
              (build report_groups)) as [s|] eqn:H; [| vm_compute in H; discriminate].
  exists s. split; [reflexivity |].
  exact (to_markdown_sections_sorted "bob" (fun _ => false) report_iterdir (fun s => s)
           "https://cloud" (build report_groups) s H).
Defined.

(** Claim C7: the header of the report gives the number of match sets, the
    number of folders with duplicates (a set: no folder twice, and exactly
    the parents of the files) and [humansize] of [total_size], the sum of
    [file_size] over the match sets, each counted once. *)
Theorem to_markdown_header user is_dir iterdir quote domain (mss : list MatchSet) s :
  to_markdown user is_dir iterdir quote domain (build mss) = Some s ->
  exists total rest,
    humansize (total_size (build mss)) = Some total /\
    s = join newline
          (["# Duplikate von " +:+ user;
            "Es gibt " +:+ str_of_N (N.of_nat (length mss)) +:+ " Duplikate in " +:+
              str_of_N (N.of_nat (length (folders_with_duplicates (build mss)))) +:+
              " Ordnern.  ";
            "Diese sind insgesamt " +:+ total +:+ " groß.";
            "## Alle Ordner mit Duplikaten"] ++ rest) /\
    total_size (build mss) = foldr (fun ms acc => file_size ms + acc)%Z 0%Z mss /\
    NoDup (folders_with_duplicates (build mss)) /\
    (forall f, f ∈ folders_with_duplicates (build mss) <->
       exists ms m, ms ∈ mss /\ m ∈ file_list ms /\ parent m = f).
Proof.
  intros Hs. apply to_markdown_Some in Hs
    as (rows & header & sections & _ & Hh & -> & _).
  unfold header_lines in Hh.
  destruct (humansize (total_size (build mss))) as [total|] eqn:Et; [| discriminate].
  simpl in Hh. injection Hh as <-.
  exists total, (concat sections). split_and!; [done | done | done | |].
  - apply folders_with_duplicates_NoDup.
  - intros f. apply elem_of_folders_with_duplicates.
Qed.

(** The header of the example report. *)
Lemma to_markdown_header_witness :
  exists s,
  to_markdown "bob" (fun _ => false) report_iterdir (fun s => s) "https://cloud"
    (build report_groups) = Some s /\
  exists total rest,
    humansize (total_size (build report_groups)) = Some total /\
    s = join newline
          (["# Duplikate von " +:+ "bob";
            "Es gibt " +:+ str_of_N (N.of_nat (length report_groups)) +:+ " Duplikate in " +:+
              str_of_N (N.of_nat (length (folders_with_duplicates (build report_groups)))) +:+
              " Ordnern.  ";
            "Diese sind insgesamt " +:+ total +:+ " groß.";
            "## Alle Ordner mit Duplikaten"] ++ rest) /\
    total_size (build report_groups) =
      foldr (fun ms acc => file_size ms + acc)%Z 0%Z report_groups /\
    NoDup (folders_with_duplicates (build report_groups)) /\
    (forall f, f ∈ folders_with_duplicates (build report_groups) <->
       exists ms m, ms ∈ report_groups /\ m ∈ file_list ms /\ parent m = f).
Proof.
  destruct (to_markdown "bob" (fun _ => false) report_iterdir (fun s => s) "https://cloud"
              (build report_groups)) as [s|] eqn:H; [| vm_compute in H; discriminate].
  exists s. split; [reflexivity |].
  exact (to_markdown_header "bob" (fun _ => false) report_iterdir (fun s => s)
           "https://cloud" report_groups s H).
Defined.

(* ------------------------------------------------------------------ *)
(** ** humansize *)

Lemma round_half_even_ge a b : (0 < b)%Z -> (a / b <= round_half_even a b)%Z.
Proof. intros Hb. unfold round_half_even. destruct (Z.even (a / b)); repeat case_decide; lia. Qed.

(** Converting an int to a float keeps its comparisons with the powers of
    two up to [2^53]. *)
Lemma float_of_int_ge_pow2 n m j :
  (0 <= j <= 53)%Z -> float_of_int n = Some m -> ((2 ^ j <= m)%Z <-> (2 ^ j <= n)%Z).
Proof.
  intros Hj. unfold float_of_int.
  assert (Hpj : (0 < 2 ^ j)%Z) by (apply Z.pow_pos_nonneg; lia).
  assert (Hj53 : (2 ^ j <= 2 ^ 53)%Z) by (apply Z.pow_le_mono_r; lia).
  set (a := Z.abs n).
  set (r := if decide (a < 2 ^ 53)%Z then a
            else ((round_half_even a (2 ^ (Z.log2 a - 52))) * 2 ^ (Z.log2 a - 52))%Z).
  assert (Hr : (0 <= r)%Z /\ ((a < 2 ^ 53)%Z -> r = a) /\ ((2 ^ 53 <= a)%Z -> (2 ^ 53 <= r)%Z)).
  { subst r. case_decide as Ha; [split_and!; lia |].
    assert (Ha0 : (0 < a)%Z) by lia.
    assert (Hlog : (53 <= Z.log2 a)%Z).
    { rewrite <- (Z.log2_pow2 53) by lia. apply Z.log2_le_mono. lia. }
    set (k := (Z.log2 a - 52)%Z).
    assert (Hk : (0 < 2 ^ k)%Z) by (apply Z.pow_pos_nonneg; lia).
    assert (Hk2 : (2 <= 2 ^ k)%Z).
    { change 2%Z with (2 ^ 1)%Z at 1. apply Z.pow_le_mono_r; lia. }
    assert (Hspec : (2 ^ 52 * 2 ^ k <= a)%Z).
    { rewrite <- Z.pow_add_r by lia. replace (52 + k)%Z with (Z.log2 a) by lia.
      apply Z.log2_spec. lia. }
    assert (Hq : (2 ^ 52 <= a / 2 ^ k)%Z).
    { apply Z.div_le_lower_bound; lia. }
    pose proof (round_half_even_ge a (2 ^ k) Hk) as Hrhe.
    assert (H52 : (2 ^ 53 = 2 ^ 52 * 2)%Z) by reflexivity.
    split_and!; [nia | lia | nia]. }
  case_decide as Hbig; [intros [=] | intros [= <-]].
  destruct Hr as (Hr0 & Hsmall & Hlarge).
  case_decide as Hneg.
  - split; intros; lia.
  - subst a. rewrite Z.abs_eq in Hsmall, Hlarge by lia.
    destruct (decide (n < 2 ^ 53)%Z); [rewrite Hsmall by done; done |].
    split; intros; lia.
Qed.

Lemma unit_index_eq n k :
  k <= 5 -> (k = 0 \/ (2 ^ (10 * Z.of_nat k) <= n)%Z) ->
  (k = 5 \/ (n < 2 ^ (10 * (Z.of_nat k + 1)))%Z) -> unit_index n = k.
Proof.
  intros Hk Hlo Hhi. unfold unit_index.
  destruct k as [|[|[|[|[|[|k]]]]]]; simpl in Hlo, Hhi;
    repeat case_decide; try lia.
Qed.

Lemma pow_step k :
  (1024 * 2 ^ Z.of_nat (10 * k))%Z = (2 ^ (10 * (Z.of_nat k + 1)))%Z.
Proof.
  rewrite Nat2Z.inj_mul, Z.mul_add_distr_l, Z.pow_add_r by lia.
  change (2 ^ (10 * 1))%Z with 1024%Z. lia.
Qed.

Lemma humansize_loop_float n m fuel k :
  float_of_int n = Some m -> 1 <= k <= 5 -> 5 <= k + fuel ->
  (2 ^ (10 * Z.of_nat k) <= n)%Z ->
  humansize_loop fuel (PyFloat m (10 * k)) k = Some (PyFloat m (10 * unit_index n), unit_index n).
Proof.
  intros Hm. revert k. induction fuel as [|fuel IH]; intros k Hk Hfuel Hn.
  - assert (k = 5) as -> by lia. rewrite (unit_index_eq n 5); auto with lia.
  - cbn [humansize_loop py_ge_1024 length suffixes].
    destruct (decide (k < 5)) as [Hk5 | Hk5].
    + rewrite (bool_decide_true (k < 6 - 1)) by lia. rewrite andb_true_r.
      rewrite pow_step. destruct (decide (2 ^ (10 * (Z.of_nat k + 1)) <= n)%Z) as [Hge | Hlt].
      * rewrite bool_decide_true.
        2:{ apply Z.le_ge, (float_of_int_ge_pow2 n m); [lia | done | done]. }
        cbn [py_div_1024]. replace (10 * k + 10) with (10 * S k) by lia.
        cbn [mbind option_bind].
        apply IH; [lia | lia |]. rewrite Nat2Z.inj_succ. rewrite <- Z.add_1_r. done.
      * rewrite bool_decide_false.
        2:{ intros Hge. apply Z.ge_le, (float_of_int_ge_pow2 n m) in Hge; [lia | lia | done]. }
        rewrite (unit_index_eq n k); auto with lia.
    + rewrite (bool_decide_false (k < 6 - 1)) by lia. rewrite andb_false_r.
      assert (k = 5) as -> by lia. rewrite (unit_index_eq n 5); auto with lia.
Qed.

Lemma option_bind_Some {A B} (x : A) (f : A -> option B) : (Some x ≫= f) = f x.
Proof. reflexivity. Qed.

Lemma humansize_loop_S fuel x i :
  humansize_loop (S fuel) x i =
  if py_ge_1024 x && bool_decide (i < length suffixes - 1) then
    nbytes' ← py_div_1024 x; humansize_loop fuel nbytes' (S i)
  else Some (x, i).
Proof. reflexivity. Qed.

(** Claim C8: [humansize] divides by [1024] while the value is at least
    [1024] and a larger unit is left, so it picks the unit of
    [humansize_spec]; both render the value with two decimals, strip the
    trailing zeros and point and append the unit; and
    [humansize(0) = "0  B"], [humansize(1023) = "1023  B"],
    [humansize(1024) = "1  KB"], [humansize(1536) = "1.5  KB"],
    [humansize(1073741824) = "1  GB"]. *)
Theorem humansize_units :
  (forall n : Z, humansize n = humansize_spec n) /\
  humansize 0 = Some "0  B" /\
  humansize 1023 = Some "1023  B" /\
  humansize 1024 = Some "1  KB" /\
  humansize 1536 = Some "1.5  KB" /\
  humansize 1073741824 = Some "1  GB".
Proof.
  split; [| split_and!; vm_compute; reflexivity].
  intros n. unfold humansize, humansize_spec.
  change (length suffixes) with 6. rewrite humansize_loop_S. cbn [py_ge_1024].
  rewrite (bool_decide_true (0 < length suffixes - 1)) by (simpl; lia). rewrite andb_true_r.
  destruct (decide (n >= 1024)%Z) as [Hge | Hlt].
  - rewrite bool_decide_true by done. cbn [py_div_1024].
    destruct (float_of_int n) as [m|] eqn:Hm; [| done].
    rewrite !option_bind_Some.
    change (PyFloat m 10) with (PyFloat m (10 * 1)).
    rewrite (humansize_loop_float n m 5 1 Hm); [| lia | lia | simpl; lia].
    rewrite !option_bind_Some. done.
  - rewrite bool_decide_false by done. rewrite option_bind_Some.
    cbn [format2f]. destruct (float_of_int n) as [m|] eqn:Hm; [| done].
    rewrite !option_bind_Some.
    rewrite (unit_index_eq n 0); [done | lia | by left | right; simpl; lia].
Qed.

(* ------------------------------------------------------------------ *)
(** ** MatchSet.__init__ *)

(** Claim C6, as stated, fails: a record with a negative size and an empty
    file list is accepted (no exception is raised). *)
Lemma MatchSet_init_accepts_bad_record :
  MatchSet_init (JObj [("fileSize", JInt (-1)); ("fileList", JArr [])]) =
  inr (mkRawMatchSet (JInt (-1)) []).
Proof. reflexivity. Qed.

(** Claim C6, amended: on a JSON object, [MatchSet.__init__] raises
    [KeyError] when [fileSize] is missing, and when [fileSize] is present
    but [fileList] is missing; otherwise the [fileSize] value is stored as
    it is, whatever it is (a negative or non-integer value included), and
    an empty [fileList] gives a match set with no files. *)
Theorem MatchSet_init_checks (kvs : list (string * json)) :
  (getitem (JObj kvs) "fileSize" = inl KeyError -> MatchSet_init (JObj kvs) = inl KeyError) /\
  (forall sz, getitem (JObj kvs) "fileSize" = inr sz ->
     getitem (JObj kvs) "fileList" = inl KeyError -> MatchSet_init (JObj kvs) = inl KeyError) /\
  (forall sz entries qs, getitem (JObj kvs) "fileSize" = inr sz ->
     getitem (JObj kvs) "fileList" = inr (JArr entries) ->
     get_file_list_loop entries = inr qs ->
     MatchSet_init (JObj kvs) = inr (mkRawMatchSet sz qs)) /\
  (forall sz, getitem (JObj kvs) "fileSize" = inr sz ->
     getitem (JObj kvs) "fileList" = inr (JArr []) ->
     MatchSet_init (JObj kvs) = inr (mkRawMatchSet sz [])).
Proof.
  unfold MatchSet_init, get_file_list. split_and!.
  - intros H. rewrite H. done.
  - intros sz H1 H2. rewrite H1. cbn [rbind]. rewrite H2. done.
  - intros sz entries qs H1 H2 H3. rewrite H1. cbn [rbind]. rewrite H2. cbn [rbind py_iter]. rewrite H3. done.
  - intros sz H1 H2. rewrite H1. cbn [rbind]. rewrite H2. done.
Qed.

(* ------------------------------------------------------------------ *)
(** ** duplicates_in_folder leaves existing objects alone *)

Lemma mbind_run {A B} (m : M A) (f : A -> M B) h a h' :
  m h = Some (a, h') -> mbind m f h = f a h'.
Proof. unfold mbind. by intros ->. Qed.

Lemma mbind_fail {A B} (m : M A) (f : A -> M B) h :
  m h = None -> mbind m f h = None.
Proof. unfold mbind. by intros ->. Qed.

Lemma load_dict_run l m h : objs h !! l = Some (ODict m) -> load_dict l h = Some (m, h).
Proof. intros E. unfold load_dict, load, mbind. by rewrite E. Qed.

Lemma load_id_set_run l s h : objs h !! l = Some (OIdSet s) -> load_id_set l h = Some (s, h).
Proof. intros E. unfold load_id_set, load, mbind. by rewrite E. Qed.

Lemma mfoldl_pure {A B} (f : A -> B -> M A) (g : A -> B -> A) (P : Heap -> Prop) (l : list B) :
  (forall acc x h, x ∈ l -> P h ->
     exists h', f acc x h = Some (g acc x, h') /\ objs h ⊆ objs h' /\ P h') ->
  forall acc h, P h ->
  exists h', mfoldl f acc l h = Some (foldl g acc l, h') /\ objs h ⊆ objs h' /\ P h'.
Proof.
  induction l as [|x l IH]; intros Hf acc h HP; simpl.
  - exists h. done.
  - destruct (Hf acc x h) as (h1 & E1 & S1 & P1); [set_solver | done |].
    destruct (IH (fun acc y h Hy => Hf acc y h ltac:(set_solver)) (g acc x) h1 P1)
      as (h2 & E2 & S2 & P2).
    exists h2. unfold mbind. rewrite E1. split_and!; [done | by etrans | done].
Qed.

Lemma heap_wf_fresh h k : heap_wf h -> next_loc h <= k -> objs h !! k = None.
Proof.
  intros Hwf Hk. apply not_elem_of_dom. intros Hd. apply Hwf in Hd. lia.
Qed.

Lemma dup_file_step_st_pure folder ms fl res fp h :
  heap_wf h -> objs h !! obj_file_list ms = Some (OPathList fl) -> fp ∈ fl ->
  exists h', dup_file_step_st folder ms res fp h =
             Some (dup_file_step folder (mkMatchSet (obj_file_size ms) fl) res fp, h') /\
           objs h ⊆ objs h' /\ heap_wf h'.
Proof.
  intros Hwf Hl Hfp. unfold dup_file_step_st, dup_file_step.
  case_decide; [| exists h; done].
  set (n := next_loc h).
  assert (Hn : objs h !! n = None) by (apply heap_wf_fresh; [done | lia]).
  assert (Hln : obj_file_list ms <> n) by (intros E; rewrite E in Hl; congruence).
  unfold set_remove, load_path_list, load_path_set, load, alloc, store, mbind, mret.
  cbn [objs next_loc].
  rewrite Hl. fold n.
  cbn beta iota. rewrite lookup_insert_eq. cbn beta iota delta [objs next_loc].
  rewrite lookup_insert_eq. cbn beta iota delta [objs next_loc].
  rewrite decide_True by (by apply elem_of_remove_dups).
  cbn beta iota delta [objs next_loc]. rewrite lookup_insert_eq.
  cbn beta iota delta [objs next_loc file_list file_size].
  assert (Hset : list_to_set (filter (fun y => y <> fp) (remove_dups fl))
                 = (list_to_set fl ∖ {[fp]} : gset Path)).
  { apply leibniz_equiv. intros x.
    rewrite elem_of_list_to_set, list_elem_of_filter, elem_of_remove_dups,
      elem_of_difference, elem_of_list_to_set, elem_of_singleton. tauto. }
  rewrite Hset. eexists. split; [reflexivity |]. cbn [objs next_loc]. split.
  - apply map_subseteq_spec. intros i x Hi.
    assert (i < n) by (apply Hwf, elem_of_dom; eauto).
    rewrite !lookup_insert_ne by lia. done.
  - intros l Hl'. destruct (decide (l < S (S n))) as [| Hge]; [done | exfalso].
    apply elem_of_dom in Hl'. cbn [objs next_loc] in Hl', Hge.
    rewrite !lookup_insert_ne in Hl' by lia.
    apply elem_of_dom, Hwf in Hl'. unfold n in Hge. lia.
Qed.

Lemma read_match_set_mono h h1 ms x :
  objs h ⊆ objs h1 -> read_match_set h ms = Some x -> read_match_set h1 ms = Some x.
Proof.
  intros Hs. unfold read_match_set.
  destruct (objs h !! obj_file_list ms) as [v|] eqn:E; [| discriminate].
  by rewrite (lookup_weaken _ _ _ _ E Hs).
Qed.

Lemma read_id_set_mono h h1 l s :
  objs h ⊆ objs h1 -> read_id_set h l = Some s -> read_id_set h1 l = Some s.
Proof.
  intros Hs. unfold read_id_set.
  destruct (objs h !! l) as [v|] eqn:E; [| discriminate].
  by rewrite (lookup_weaken _ _ _ _ E Hs).
Qed.

Lemma read_output_mono h h1 o a :
  objs h ⊆ objs h1 -> read_output h o = Some a -> read_output h1 o = Some a.
Proof.
  intros Hs. unfold read_output.
  destruct (mapM (read_match_set h) (obj_match_sets o)) as [mss|] eqn:E; [| discriminate].
  rewrite (mapM_Some_2 _ _ _ (Forall2_impl _ _ _ _ (mapM_Some_1 _ _ _ E)
             (fun x y => read_match_set_mono h h1 x y Hs))).
  rewrite !option_bind_Some.
  destruct (objs h !! obj_folder_cache o) as [v|] eqn:Ec; [| discriminate].
  rewrite (lookup_weaken _ _ _ _ Ec Hs).
  destruct v as [| | | m]; try discriminate. rewrite !option_bind_Some.
  case_decide as Hall; [| discriminate].
  rewrite decide_True.
  - intros <-. do 2 f_equal. apply map_fmap_ext. intros k l Hk.
    destruct (Hall k l Hk) as [s Hsl]. by rewrite Hsl, (read_id_set_mono h h1 l s Hs Hsl).
  - intros k l Hk. destruct (Hall k l Hk) as [s Hsl].
    exists s. by apply (read_id_set_mono h).
Qed.

Lemma dup_set_step_st_pure h0 h msobjs mss folder res i :
  Forall2 (fun x y => read_match_set h0 x = Some y) msobjs mss ->
  i < length mss -> heap_wf h -> objs h0 ⊆ objs h ->
  exists h', dup_set_step_st msobjs folder res i h = Some (dup_set_step mss folder res i, h') /\
             objs h ⊆ objs h' /\ heap_wf h'.
Proof.
  intros Hall Hi Hwf Hs.
  destruct (lookup_lt_is_Some_2 mss i Hi) as [msp Hmsp].
  destruct (Forall2_lookup_r _ _ _ _ _ Hall Hmsp) as (mso & Hmso & Hread).
  unfold read_match_set in Hread.
  destruct (objs h0 !! obj_file_list mso) as [[fl | | |]|] eqn:Efl; try discriminate.
  injection Hread as <-.
  pose proof (lookup_weaken _ _ _ _ Efl Hs) as Efl'.
  unfold dup_set_step_st, dup_set_step. rewrite Hmsp.
  unfold mbind at 1, lift. rewrite Hmso.
  unfold mbind at 1, load_path_list, mbind at 1, load. rewrite Efl'.
  cbn beta iota delta [file_list].
  destruct (mfoldl_pure (dup_file_step_st folder mso)
              (dup_file_step folder (mkMatchSet (obj_file_size mso) fl))
              (fun h' => heap_wf h' /\ objs h ⊆ objs h') fl) with (acc := res) (h := h)
    as (h' & E & Hs' & Hwf' & _).
  - intros acc x h1 Hx [Hwf1 Hs1].
    destruct (dup_file_step_st_pure folder mso fl acc x h1 Hwf1
                (lookup_weaken _ _ _ _ Efl' Hs1) Hx) as (h2 & E2 & Hs2 & Hwf2).
    exists h2. split_and!; [done | done | done | by etrans].
  - done.
  - exists h'. done.
Qed.

Lemma duplicates_in_folder_st_pure o a folder h :
  heap_wf h -> read_output h o = Some a -> ids_valid a ->
  (duplicates_in_folder a folder = None /\ duplicates_in_folder_st o folder h = None) \/
  (exists r h1, duplicates_in_folder a folder = Some r /\
     duplicates_in_folder_st o folder h = Some (r, h1) /\ objs h ⊆ objs h1 /\ heap_wf h1).
Proof.
  intros Hwf Hro Hvalid. unfold read_output in Hro.
  destruct (mapM (read_match_set h) (obj_match_sets o)) as [mss|] eqn:E; [| discriminate].
  rewrite option_bind_Some in Hro.
  destruct (objs h !! obj_folder_cache o) as [[| | | m]|] eqn:Ec; try discriminate.
  rewrite option_bind_Some in Hro.
  case_decide as Hall; [| discriminate]. injection Hro as <-.
  unfold ids_valid in Hvalid. cbn [folder_cache match_sets] in Hvalid.
  unfold duplicates_in_folder, duplicates_in_folder_st. cbn [folder_cache match_sets].
  rewrite lookup_fmap. rewrite (mbind_run _ _ _ _ _ (load_dict_run _ _ _ Ec)). cbv beta.
  destruct (m !! folder) as [l|] eqn:Ef.
  2:{ left. split; [done |]. by apply mbind_fail. }
  right. destruct (Hall folder l Ef) as [s Hs].
  unfold read_id_set in Hs.
  destruct (objs h !! l) as [[| | s' |]|] eqn:El; try discriminate. injection Hs as ->.
  rewrite (mbind_run _ _ _ l h); [cbv beta | done].
  rewrite (mbind_run _ _ _ s h (load_id_set_run _ _ _ El)). cbv beta.
  assert (Hids : Forall (fun i => i < length mss) s).
  { apply (Hvalid folder). rewrite lookup_fmap, Ef. cbn. unfold read_id_set. by rewrite El. }
  rewrite Forall_forall in Hids.
  destruct (mfoldl_pure (dup_set_step_st (obj_match_sets o) folder) (dup_set_step mss folder)
              (fun h' => heap_wf h' /\ objs h ⊆ objs h') s) with (acc := @nil DuplicateInFolder) (h := h)
    as (h' & E' & Hs' & Hwf' & _).
  - intros acc i h1 Hi [Hwf1 Hs1].
    destruct (dup_set_step_st_pure h h1 (obj_match_sets o) mss folder acc i
                (mapM_Some_1 _ _ _ E) (Hids i Hi) Hwf1 Hs1) as (h2 & E2 & Hs2 & Hwf2).
    exists h2. split_and!; [done | done | done | by etrans].
  - done.
  - exists (foldl (dup_set_step mss folder) [] s), h'.
    cbn [fmap option_fmap option_map default]. unfold read_id_set. rewrite El. done.
Qed.

(** Claim C10: [duplicates_in_folder] is deterministic and leaves the
    objects it reads alone. Run on a heap holding a [JDupesOutput], a call
    either raises (when the folder is not in the cache, as the pure
    function says) or returns the pure function's result; in the latter
    case every object that existed before (the match sets' file lists, the
    cache dict and its sets) is unchanged, the object still reads as the
    same [JDupesOutput], and a second call with the same folder returns
    the same result and again changes no existing object. *)
Theorem duplicates_in_folder_repeatable (o : OutputObj) (a : JDupesOutput) (folder : Path) (h : Heap) :
  heap_wf h -> read_output h o = Some a -> ids_valid a ->
  match duplicates_in_folder_st o folder h with
  | None => duplicates_in_folder a folder = None
  | Some (r1, h1) =>
      duplicates_in_folder a folder = Some r1 /\
      objs h ⊆ objs h1 /\ read_output h1 o = Some a /\
      exists h2, duplicates_in_folder_st o folder h1 = Some (r1, h2) /\ objs h1 ⊆ objs h2
  end.
Proof.
  intros Hwf Hro Hvalid.
  destruct (duplicates_in_folder_st_pure o a folder h Hwf Hro Hvalid)
    as [[Hn Hst] | (r & h1 & Hr & Hst & Hs1 & Hwf1)]; rewrite Hst; [done |].
  assert (Hro1 : read_output h1 o = Some a) by (by apply (read_output_mono h)).
  split_and!; [done | done | done |].
  destruct (duplicates_in_folder_st_pure o a folder h1 Hwf1 Hro1 Hvalid)
    as [[Hn _] | (r' & h2 & Hr' & Hst' & Hs2 & _)]; [congruence |].
  rewrite Hr in Hr'. injection Hr' as <-. eauto.
Qed.

Lemma duplicates_in_folder_repeatable_witness :
  heap_wf example_heap /\ read_output example_heap example_output_obj = Some example_output /\
  ids_valid example_output /\
  match duplicates_in_folder_st example_output_obj (p "/" ["d2"]) example_heap with
  | None => duplicates_in_folder example_output (p "/" ["d2"]) = None
  | Some (r1, h1) =>
      duplicates_in_folder example_output (p "/" ["d2"]) = Some r1 /\
      objs example_heap ⊆ objs h1 /\ read_output h1 example_output_obj = Some example_output /\
      exists h2, duplicates_in_folder_st example_output_obj (p "/" ["d2"]) h1 = Some (r1, h2) /\
                 objs h1 ⊆ objs h2
  end.
Proof.
  assert (Hwf : heap_wf example_heap).
  { intros l Hl. unfold example_heap in *. cbn [objs next_loc] in *.
    destruct (decide (l < 5)) as [| Hge]; [done | exfalso].
    apply elem_of_dom in Hl. rewrite !lookup_insert_ne, lookup_empty in Hl by lia.
    by destruct Hl. }
  assert (Hro : read_output example_heap example_output_obj = Some example_output)
    by (vm_compute; reflexivity).
  assert (Hvalid : ids_valid example_output) by (unfold ids_valid; apply (bool_decide_unpack _); vm_compute; reflexivity).
  split_and!; [exact Hwf | exact Hro | exact Hvalid |].
  exact (duplicates_in_folder_repeatable example_output_obj example_output (p "/" ["d2"])
           example_heap Hwf Hro Hvalid).
Defined.

(* ------------------------------------------------------------------ *)
(** ** Paths, the report file and links *)

Lemma list_ascii_of_string_app a b :
  list_ascii_of_string (a +:+ b) = list_ascii_of_string a ++ list_ascii_of_string b.
Proof. induction a as [|c a IH]; simpl; [done | by rewrite IH]. Qed.

Lemma split_slash_noslash cs s cur :
  "/"%char ∉ cs -> split_slash (cs ++ s) cur = split_slash s (rev cs ++ cur).
Proof.
  revert cur. induction cs as [|c cs IH]; intros cur Hcs; simpl; [done |].
  rewrite bool_decide_false by (intros ->; apply Hcs; left).
  rewrite IH by (intros H; apply Hcs; by right). by rewrite <- app_assoc.
Qed.

Lemma split_slash_app s1 s2 cur :
  split_slash (s1 ++ "/"%char :: s2) cur = split_slash s1 cur ++ split_slash s2 [].
Proof.
  revert cur. induction s1 as [|c s1 IH]; intros cur; simpl.
  - first [reflexivity | case_bool_decide; [reflexivity | congruence]].
  - case_bool_decide; [by rewrite IH | apply IH].
Qed.

Lemma split_slash_single cs : "/"%char ∉ cs -> split_slash cs [] = [cs].
Proof.
  intros Hcs. rewrite <- (app_nil_r cs) at 1. rewrite split_slash_noslash by done.
  simpl. by rewrite app_nil_r, rev_involutive.
Qed.

Lemma list_elem_of_rev {A} (x : A) l : x ∈ rev l <-> x ∈ l.
Proof. rewrite !list_elem_of_In. symmetry. apply in_rev. Qed.

Lemma split_slash_noslash_parts s cur :
  "/"%char ∉ cur -> Forall (fun x => "/"%char ∉ x) (split_slash s cur).
Proof.
  revert cur. induction s as [|c s IH]; intros cur Hcur; simpl.
  - constructor; [| done]. by rewrite list_elem_of_rev.
  - case_bool_decide as Hc.
    + constructor; [by rewrite list_elem_of_rev | apply IH; set_solver].
    + apply IH. rewrite elem_of_cons. intros [H | H]; [congruence | done].
Qed.

Lemma split_slash_join ps :
  Forall (fun x => "/"%char ∉ list_ascii_of_string x) ps -> ps <> [] ->
  split_slash (list_ascii_of_string (join "/" ps)) [] = map list_ascii_of_string ps.
Proof.
  induction ps as [|x [|y ps] IH]; intros Hps Hne; [done | |].
  - simpl. apply Forall_inv in Hps. by apply split_slash_single.
  - change (join "/" (x :: y :: ps)) with (x +:+ "/" +:+ join "/" (y :: ps)).
    rewrite !list_ascii_of_string_app.
    change (list_ascii_of_string "/") with ["/"%char]. cbn [app].
    rewrite split_slash_app. apply Forall_cons in Hps as [Hx Hps].
    rewrite split_slash_single by done. rewrite IH by done. done.
Qed.

Lemma string_app_assoc (a b c : string) : (a +:+ b) +:+ c = a +:+ (b +:+ c).
Proof. induction a as [|x a IH]; [reflexivity | exact (f_equal (String x) IH)]. Qed.

Lemma filter_Forall_id {A} (P : A -> Prop) `{forall x, Decision (P x)} l :
  Forall P l -> filter P l = l.
Proof.
  induction 1 as [|x l Hx Hl IH]; [done |]. rewrite filter_cons_True by done. by rewrite IH.
Qed.

Lemma drop_while_slashes (r t : list ascii) :
  Forall (fun c => c = "/"%char) r ->
  drop_while (fun c => bool_decide (c = "/"%char)) (r ++ t) =
  drop_while (fun c => bool_decide (c = "/"%char)) t.
Proof.
  induction 1 as [|c r Hc Hr IH]; [done |]. simpl. rewrite bool_decide_true by done. done.
Qed.

Lemma join_cons_head x ps :
  exists rest, list_ascii_of_string (join "/" (x :: ps)) = list_ascii_of_string x ++ rest.
Proof.
  destruct ps as [|y ps].
  - exists []. by rewrite app_nil_r.
  - exists (list_ascii_of_string ("/" +:+ join "/" (y :: ps))).
    change (join "/" (x :: y :: ps)) with (x +:+ ("/" +:+ join "/" (y :: ps))).
    apply list_ascii_of_string_app.
Qed.

Lemma path_str_wf r ps :
  (r = "" \/ r = "/" \/ r = "//") -> ~ (r = "" /\ ps = []) ->
  path_str (mkPath r ps) = r +:+ join "/" ps.
Proof.
  intros Hr Hne. unfold path_str. cbn [root parts].
  destruct Hr as [-> | [-> | ->]]; [| done | done].
  destruct ps; [tauto | done].
Qed.

Lemma parse_path_path_str q : path_wf q -> parse_path (path_str q) = q.
Proof.
  destruct q as [r ps]. intros [Hr Hps]. cbn [root parts] in *.
  destruct (decide (r = "" /\ ps = [])) as [[-> ->] | Hne]; [reflexivity |].
  rewrite path_str_wf by done. unfold parse_path.
  rewrite list_ascii_of_string_app.
  set (L := list_ascii_of_string (join "/" ps)).
  assert (HL : drop_while (fun c => bool_decide (c = "/"%char)) L = L).
  { subst L. destruct ps as [|x ps]; [done |].
    destruct (join_cons_head x ps) as [rest ->].
    apply Forall_cons in Hps as [(Hx1 & _ & Hx3) _].
    destruct (list_ascii_of_string x) as [|c cs] eqn:Ex.
    - destruct x; [done | discriminate].
    - simpl. rewrite bool_decide_false; [done |]. intros ->. apply Hx3. left. }
  assert (Hslash : Forall (fun c => c = "/"%char) (list_ascii_of_string r)).
  { destruct Hr as [-> | [-> | ->]]; repeat constructor. }
  rewrite drop_while_slashes, HL by done.
  rewrite length_app, Nat.add_sub, drop_app_length.
  f_equal.
  - destruct Hr as [-> | [-> | ->]]; reflexivity.
  - subst L. destruct ps as [|x ps].
    + reflexivity.
    + rewrite split_slash_join.
      2:{ eapply Forall_impl; [exact Hps |]. naive_solver. }
      2:{ done. }
      rewrite filter_Forall_id.
      * rewrite map_map. rewrite <- (map_id (x :: ps)) at 2. apply map_ext.
        apply string_of_list_ascii_of_string.
      * apply Forall_map. eapply Forall_impl; [exact Hps |]. intros y (Hy1 & Hy2 & _).
        split.
        -- intros Hy. apply Hy1. rewrite <- (string_of_list_ascii_of_string y), Hy. done.
        -- intros Hy. apply Hy2. rewrite <- (string_of_list_ascii_of_string y), Hy. done.
Qed.

Lemma parse_path_wf s : path_wf (parse_path s).
Proof.
  unfold parse_path. split; cbn [root parts].
  - repeat case_bool_decide; auto.
  - apply Forall_map. apply Forall_forall. intros x Hx.
    apply list_elem_of_filter in Hx as [[Hx1 Hx2] Hx].
    assert (Hall : "/"%char ∉ x).
    { pose proof (split_slash_noslash_parts
        (drop (length (list_ascii_of_string s) -
               length (drop_while (fun c => bool_decide (c = "/"%char)) (list_ascii_of_string s)))
              (list_ascii_of_string s)) [] ltac:(set_solver)) as Hall.
      rewrite Forall_forall in Hall. exact (Hall x Hx). }
    rewrite list_ascii_of_string_of_list_ascii. split_and!; [| | done].
    + intros Hx'. apply Hx1. rewrite <- (list_ascii_of_string_of_list_ascii x), Hx'. done.
    + intros Hx'. apply Hx2. rewrite <- (list_ascii_of_string_of_list_ascii x), Hx'. done.
Qed.

(** Reading back the string of a path: for every well-formed path (root
    [""], ["/"] or ["//"]; no part empty, ["."] or holding ["/"]),
    [Path(str(q)) == q]. *)
Theorem parse_path_str q : path_wf q -> parse_path (path_str q) = q.
Proof. apply parse_path_path_str. Qed.

(** Every path [Path(s)] builds is well formed, so [Path(str(Path(s)))]
    is [Path(s)] again. *)
Theorem parse_path_normal_form s :
  path_wf (parse_path s) /\ parse_path (path_str (parse_path s)) = parse_path s.
Proof. split; [apply parse_path_wf | apply parse_path_path_str, parse_path_wf]. Qed.

Lemma drop_while_split (cs : list ascii) :
  exists pre, Forall (fun c => c = "/"%char) pre /\
    cs = pre ++ drop_while (fun c => bool_decide (c = "/"%char)) cs.
Proof.
  induction cs as [|c cs IH]; [by exists [] |]. simpl. case_bool_decide as Hc.
  - destruct IH as (pre & Hpre & Heq). exists (c :: pre). split; [by constructor |].
    simpl. by rewrite <- Heq.
  - exists []. done.
Qed.

Lemma filter_split_slashes (pre t : list ascii) :
  Forall (fun c => c = "/"%char) pre ->
  filter (fun x => x <> [] /\ x <> ["."%char]) (split_slash (pre ++ t) []) =
  filter (fun x => x <> [] /\ x <> ["."%char]) (split_slash t []).
Proof.
  induction 1 as [|c pre Hc Hpre IH]; [done |]. subst c. simpl.
  rewrite filter_cons_False by tauto. done.
Qed.

(** The parts of [parse_path u] from the whole of [u]. *)
Lemma parse_path_parts u :
  parts (parse_path u) =
  map string_of_list_ascii
    (filter (fun x => x <> [] /\ x <> ["."%char]) (split_slash (list_ascii_of_string u) [])).
Proof.
  unfold parse_path. cbn [parts]. f_equal.
  destruct (drop_while_split (list_ascii_of_string u)) as (pre & Hpre & Heq).
  set (t := drop_while (fun c => bool_decide (c = "/"%char)) (list_ascii_of_string u)) in *.
  clearbody t. rewrite Heq.
  rewrite length_app, Nat.add_sub, drop_app_length, filter_split_slashes by done. done.
Qed.

Lemma user_file_path_parts_eq u :
  user_file_path u = mkPath "/" (["var"; "www"; "html"; "data"] ++ parts (parse_path u) ++ ["files"]) /\
  report_file_path u =
    mkPath "/" (["var"; "www"; "html"; "data"] ++ parts (parse_path u) ++ ["files"; "Duplikate.md"]).
Proof.
  assert (H : user_file_path u =
    mkPath "/" (["var"; "www"; "html"; "data"] ++ parts (parse_path u) ++ ["files"])).
  { unfold user_file_path, parse_path at 1.
    rewrite !list_ascii_of_string_app.
    change (list_ascii_of_string "/var/www/html/data/")
      with ("/"%char :: list_ascii_of_string "var/www/html/data/").
    cbn [app drop_while]. rewrite (bool_decide_true ("/"%char = "/"%char)) by done.
    assert (Hv : forall t, drop_while (fun c => bool_decide (c = "/"%char))
                             (list_ascii_of_string "var/www/html/data/" ++ t) =
                           list_ascii_of_string "var/www/html/data/" ++ t) by reflexivity.
    rewrite Hv. cbn [length]. rewrite Nat.sub_succ_l, Nat.sub_diag by lia. cbn [drop].
    f_equal. rewrite parse_path_parts.
    assert (Hs : forall t, split_slash (list_ascii_of_string "var/www/html/data/" ++ t) [] =
                  [list_ascii_of_string "var"; list_ascii_of_string "www";
                   list_ascii_of_string "html"; list_ascii_of_string "data"] ++
                  split_slash t []) by reflexivity. rewrite drop_0.
    rewrite Hs. change (list_ascii_of_string "/files/")
      with ("/"%char :: list_ascii_of_string "files/").
    rewrite split_slash_app.
    assert (Hf : split_slash (list_ascii_of_string "files/") [] =
                 [list_ascii_of_string "files"; []]) by reflexivity.
    rewrite Hf. rewrite !filter_app, !map_app. reflexivity. }
  split; [exact H |].
  unfold report_file_path, path_join. rewrite H.
  assert (Hd : parse_path "Duplikate.md" = mkPath "" ["Duplikate.md"]) by reflexivity.
  rewrite Hd. unfold path_truediv. cbn [root parts]. rewrite bool_decide_true by done.
  f_equal. rewrite <- !app_assoc. done.
Qed.

(** [NextcloudInfo.user_file_path] is the absolute path of the parts
    [var/www/html/data], the parts of the user name read as a path, and
    [files]; the report file of [write_to_nextcloud] adds the part
    [Duplikate.md] to it. *)
Theorem user_file_path_parts u :
  user_file_path u = mkPath "/" (["var"; "www"; "html"; "data"] ++ parts (parse_path u) ++ ["files"]) /\
  report_file_path u =
    mkPath "/" (["var"; "www"; "html"; "data"] ++ parts (parse_path u) ++ ["files"; "Duplikate.md"]).
Proof. apply user_file_path_parts_eq. Qed.

(** A user name without ["/"], other than [""] and ["."], is one part. *)
Lemma parse_path_name u :
  "/"%char ∉ list_ascii_of_string u -> u <> "" -> u <> "." -> parse_path u = mkPath "" [u].
Proof.
  intros Hs Hne Hdot. unfold parse_path.
  assert (Hd : drop_while (fun c => bool_decide (c = "/"%char)) (list_ascii_of_string u) =
               list_ascii_of_string u).
  { destruct u as [|c u]; [done |]. simpl. rewrite bool_decide_false; [done |].
    intros ->. apply Hs. left. }
  rewrite Hd, Nat.sub_diag, drop_0. rewrite split_slash_single by done.
  rewrite filter_cons_True, filter_nil.
  - cbn [map]. by rewrite string_of_list_ascii_of_string.
  - split.
    + intros H. apply Hne. rewrite <- (string_of_list_ascii_of_string u), H. done.
    + intros H. apply Hdot. rewrite <- (string_of_list_ascii_of_string u), H. done.
Qed.

(** For a user name without ["/"], other than [""] and ["."],
    [write_to_nextcloud] writes to ["/var/www/html/data/<user>/files/Duplikate.md"]. *)
Theorem report_file_path_str u :
  "/"%char ∉ list_ascii_of_string u -> u <> "" -> u <> "." ->
  path_str (report_file_path u) = "/var/www/html/data/" +:+ u +:+ "/files/Duplikate.md".
Proof.
  intros Hs Hne Hdot. rewrite (proj2 (user_file_path_parts_eq u)), parse_path_name by done.
  reflexivity.
Qed.

Lemma report_file_path_str_witness :
  (("/"%char ∉ list_ascii_of_string "bob") /\ "bob" <> "" /\ "bob" <> ".") /\
  path_str (report_file_path "bob") = "/var/www/html/data/" +:+ "bob" +:+ "/files/Duplikate.md".
Proof.
  assert (H1 : "/"%char ∉ list_ascii_of_string "bob") by (vm_compute; set_solver).
  assert (H2 : "bob" <> "") by discriminate.
  assert (H3 : "bob" <> ".") by discriminate.
  split; [split_and!; assumption |]. exact (report_file_path_str "bob" H1 H2 H3).
Defined.


(** [create_link] on a path below the user's files directory links the
    relative path: it asks [is_dir] about that relative path (not the
    original one), links it as a folder when [is_dir] says so, and else
    links its parent and appends ["/" + name]; a file directly in the
    files directory gets the link text ["."]. *)
Theorem create_link_under_user u is_dir quote domain rs :
  let r := mkPath "" rs in
  create_link u is_dir quote domain (path_truediv (user_file_path u) r) =
  (if is_dir r then create_folder_link quote domain r
   else create_folder_link quote domain (parent r) +:+ "/" +:+ path_name r) /\
  (forall name, is_dir (mkPath "" [name]) = false ->
   create_link u is_dir quote domain (path_truediv (user_file_path u) (mkPath "" [name])) =
   "[.](" +:+ domain +:+ "/apps/files/?dir=/" +:+ quote "." +:+ ")/" +:+ name).
Proof.
  assert (Hgen : forall rs, create_link u is_dir quote domain
                   (path_truediv (user_file_path u) (mkPath "" rs)) =
                 (if is_dir (mkPath "" rs) then create_folder_link quote domain (mkPath "" rs)
                  else create_folder_link quote domain (parent (mkPath "" rs)) +:+ "/" +:+
                       path_name (mkPath "" rs))).
  { intros rs'. unfold create_link, path_truediv. cbn [root parts].
    rewrite bool_decide_true by done.
    unfold is_relative_to, relative_to. cbn [root parts].
    rewrite bool_decide_true by (split; [done | by exists rs']).
    cbn [default]. rewrite drop_app_length. done. }
  intros r. split; [apply Hgen |].
  intros name Hn. rewrite Hgen, Hn. unfold create_folder_link, base_file_url.
  cbn [parent path_name parts root removelast last default path_str].
  rewrite !string_app_assoc. reflexivity.
Qed.

Lemma hex_digit_safe n : quote_safe (hex_digit n) = true.
Proof. do 16 (destruct n as [|n]; [reflexivity |]). reflexivity. Qed.

Lemma hex_digit_inj a b : a < 16 -> b < 16 -> hex_digit a = hex_digit b -> a = b.
Proof.
  intros Ha Hb.
  do 16 (destruct a as [|a]; [do 16 (destruct b as [|b]; [first [reflexivity | discriminate] |]); lia |]).
  lia.
Qed.

Lemma quote_safe_percent : quote_safe "%" = false.
Proof. reflexivity. Qed.

(** [quote] only outputs safe characters and ["%"]: the URL part of a
    folder link never holds a parenthesis, a bracket, a space or a
    newline. *)
Theorem py_quote_alphabet s :
  Forall (fun c => quote_safe c = true \/ c = "%"%char) (list_ascii_of_string (py_quote s)) /\
  Forall (fun c => c <> ")"%char /\ c <> "("%char /\ c <> " "%char /\ c <> "]"%char /\
                   c <> ascii_of_nat 10) (list_ascii_of_string (py_quote s)).
Proof.
  assert (H : Forall (fun c => quote_safe c = true \/ c = "%"%char)
                     (list_ascii_of_string (py_quote s))).
  { induction s as [|c s IH]; simpl; [constructor |].
    destruct (quote_safe c) eqn:Hc; simpl.
    - constructor; [by left | done].
    - constructor; [by right |]. constructor; [left; apply hex_digit_safe |].
      constructor; [left; apply hex_digit_safe | done]. }
  split; [exact H |]. eapply Forall_impl; [exact H |].
  intros c [Hc | ->]; [| split_and!; discriminate].
  split_and!; intros ->; discriminate.
Qed.

(** [quote] is injective: different folder paths get different URLs. *)
Theorem py_quote_inj s1 s2 : py_quote s1 = py_quote s2 -> s1 = s2.
Proof.
  revert s2. induction s1 as [|c1 s1 IH]; intros [|c2 s2]; cbn [py_quote]; try done.
  - destruct (quote_safe c2); discriminate.
  - destruct (quote_safe c1); discriminate.
  - destruct (quote_safe c1) eqn:H1, (quote_safe c2) eqn:H2.
    + intros [= -> Hs]. f_equal. by apply IH.
    + intros [= -> _]. by rewrite quote_safe_percent in H1.
    + intros [= <- _]. by rewrite quote_safe_percent in H2.
    + intros [= Hhi Hlo Hs].
      change (hex_digit (nat_of_ascii c1 / 16) = hex_digit (nat_of_ascii c2 / 16)) in Hhi.
      change (hex_digit (nat_of_ascii c1 mod 16) = hex_digit (nat_of_ascii c2 mod 16)) in Hlo.
      pose proof (nat_ascii_bounded c1). pose proof (nat_ascii_bounded c2).
      apply hex_digit_inj in Hhi; [| apply Nat.Div0.div_lt_upper_bound; lia ..].
      apply hex_digit_inj in Hlo; [| apply Nat.mod_upper_bound; lia ..].
      f_equal; [| by apply IH].
      rewrite <- (ascii_nat_embedding c1), <- (ascii_nat_embedding c2). f_equal.
      rewrite (Nat.div_mod (nat_of_ascii c1) 16), (Nat.div_mod (nat_of_ascii c2) 16) by lia.
      by rewrite Hhi, Hlo.
Qed.

(* ------------------------------------------------------------------ *)
(** ** Further properties of humansize *)

Lemma humansize_eq_spec n : humansize n = humansize_spec n.
Proof.
  unfold humansize, humansize_spec.
  change (length suffixes) with 6. rewrite humansize_loop_S. cbn [py_ge_1024].
  rewrite (bool_decide_true (0 < length suffixes - 1)) by (simpl; lia). rewrite andb_true_r.
  destruct (decide (n >= 1024)%Z) as [Hge | Hlt].
  - rewrite bool_decide_true by done. cbn [py_div_1024].
    destruct (float_of_int n) as [m|] eqn:Hm; [| done].
    rewrite !option_bind_Some.
    change (PyFloat m 10) with (PyFloat m (10 * 1)).
    rewrite (humansize_loop_float n m 5 1 Hm); [| lia | lia | simpl; lia].
    rewrite !option_bind_Some. done.
  - rewrite bool_decide_false by done. rewrite option_bind_Some.
    cbn [format2f]. destruct (float_of_int n) as [m|] eqn:Hm; [| done].
    rewrite !option_bind_Some.
    rewrite (unit_index_eq n 0); [done | lia | by left | right; simpl; lia].
Qed.

Lemma unit_index_le n : unit_index n <= 5.
Proof. unfold unit_index. repeat case_decide; lia. Qed.

Lemma humansize_None_iff n : humansize n = None <-> float_of_int n = None.
Proof.
  rewrite humansize_eq_spec. unfold humansize_spec.
  destruct (float_of_int n) as [m|]; [| done]. rewrite option_bind_Some.
  pose proof (unit_index_le n) as Hu.
  destruct (suffixes !! unit_index n) eqn:E.
  - rewrite option_bind_Some. done.
  - apply lookup_ge_None in E. simpl in E. lia.
Qed.

Lemma float_of_int_None_iff n :
  float_of_int n = None <-> (2 ^ 1024 - 2 ^ 970 <= Z.abs n)%Z.
Proof.
  unfold float_of_int. set (a := Z.abs n).
  assert (Ha0 : (0 <= a)%Z) by lia.
  cbv zeta. destruct (decide (a < 2 ^ 53)%Z) as [Hsmall | Hsmall].
  { case_decide; [lia |]. split; [done | lia]. }
  assert (Hapos : (0 < a)%Z) by lia.
  assert (Hlog : (53 <= Z.log2 a)%Z).
  { rewrite <- (Z.log2_pow2 53) by lia. apply Z.log2_le_mono. lia. }
  set (k := (Z.log2 a - 52)%Z).
  assert (Hk : (0 < 2 ^ k)%Z) by (apply Z.pow_pos_nonneg; lia).
  assert (Hlo : (2 ^ 52 * 2 ^ k <= a)%Z).
  { rewrite <- Z.pow_add_r by lia. replace (52 + k)%Z with (Z.log2 a) by lia.
    apply Z.log2_spec. lia. }
  assert (Hhi : (a < 2 ^ 53 * 2 ^ k)%Z).
  { rewrite <- Z.pow_add_r by lia. replace (53 + k)%Z with (Z.succ (Z.log2 a)) by lia.
    apply Z.log2_spec. lia. }
  assert (Hq1 : (2 ^ 52 <= a / 2 ^ k)%Z) by (apply Z.div_le_lower_bound; lia).
  assert (Hq2 : (a / 2 ^ k < 2 ^ 53)%Z) by (apply Z.div_lt_upper_bound; lia).
  pose proof (Z.div_mod a (2 ^ k) ltac:(lia)) as Hdm.
  pose proof (Z.mod_pos_bound a (2 ^ k) Hk) as Hmb.
  set (q := (a / 2 ^ k)%Z) in *. set (rm := (a mod 2 ^ k)%Z) in *.
  assert (Hrhe : round_half_even a (2 ^ k) = q \/ round_half_even a (2 ^ k) = (q + 1)%Z).
  { unfold round_half_even. fold q rm. destruct (Z.even q); repeat case_decide; auto. }
  destruct (decide (1024 <= Z.log2 a)%Z) as [Hbig | Hnbig].
  - (* a >= 2^1024 *)
    assert (Hp : (2 ^ 1024 <= 2 ^ 52 * 2 ^ k)%Z).
    { rewrite <- Z.pow_add_r by lia. apply Z.pow_le_mono_r; lia. }
    case_decide as Hov; [split; [intros _; lia | done] |].
    exfalso. apply Hov. destruct Hrhe as [-> | ->]; nia.
  - destruct (decide (Z.log2 a <= 1022)%Z) as [Hsm | Hnsm].
    + assert (Hp : (2 ^ 53 * 2 ^ k <= 2 ^ 1023)%Z).
      { rewrite <- Z.pow_add_r by lia. apply Z.pow_le_mono_r; lia. }
      case_decide as Hov.
      * exfalso. destruct Hrhe as [E | E]; rewrite E in Hov.
        -- assert (q * 2 ^ k < 2 ^ 53 * 2 ^ k)%Z by (apply Z.mul_lt_mono_pos_r; lia). lia.
        -- assert ((q + 1) * 2 ^ k <= 2 ^ 53 * 2 ^ k)%Z by (apply Z.mul_le_mono_pos_r; lia). lia.
      * split; [done | lia].
    + assert (Hk971 : k = 971%Z) by (subst k; lia).
      unfold round_half_even. cbv zeta. fold q rm. clear Hrhe. clearbody k q rm. subst k.
      destruct (Z.even q) eqn:Hev; repeat case_decide; try (split; [done | lia]); try (split; [intros _; lia | done]).
      all: split; [done |]; apply Z.even_spec in Hev; destruct Hev as [t ->]; lia.
Qed.

(** [humansize] raises [OverflowError] (at the conversion of the int to a
    float) exactly when [|n| >= 2^1024 - 2^970], the ints that round to
    [2^1024] or more. *)
Theorem humansize_overflow n :
  humansize n = None <-> (2 ^ 1024 - 2 ^ 970 <= Z.abs n)%Z.
Proof. rewrite humansize_None_iff. apply float_of_int_None_iff. Qed.

Lemma string_of_uint_nodot d :
  Forall (fun c => c <> "."%char) (list_ascii_of_string (NilEmpty.string_of_uint d)).
Proof. induction d; simpl; constructor; try done; discriminate. Qed.

Lemma str_of_N_shape k :
  str_of_N k <> "" /\ Forall (fun c => c <> "."%char) (list_ascii_of_string (str_of_N k)).
Proof.
  unfold str_of_N. destruct (N.to_uint k) eqn:E; cbn [NilZero.string_of_uint];
    (split; [discriminate | try (constructor; [discriminate | constructor])]);
    (apply string_of_uint_nodot).
Qed.

Lemma drop_while_all {A} (P : A -> bool) l r :
  Forall (fun x => P x = true) l -> drop_while P (l ++ r) = drop_while P r.
Proof. induction 1 as [|x l Hx _ IH]; simpl; [done | by rewrite Hx]. Qed.

Lemma rstrip_app c s t :
  s <> "" -> (forall l d, list_ascii_of_string s = l ++ [d] -> d <> c) ->
  Forall (fun d => d = c) (list_ascii_of_string t) -> rstrip c (s +:+ t) = s.
Proof.
  intros Hne Hlast Ht. unfold rstrip. rewrite list_ascii_of_string_app, rev_app_distr.
  rewrite drop_while_all.
  2:{ apply Forall_rev. eapply Forall_impl; [exact Ht |]. intros x ->. by apply bool_decide_true. }
  destruct (list_ascii_of_string s) as [|x l] eqn:Es.
  { exfalso. destruct s; [done | discriminate]. }
  destruct (exists_last (l := x :: l) ltac:(discriminate)) as (l' & d & Ed).
  rewrite Ed, rev_app_distr. cbn [rev app drop_while].
  rewrite bool_decide_false by (apply (Hlast l'); rewrite ?Es; exact Ed).
  cbn [rev]. rewrite rev_involutive.
  rewrite <- Ed, <- Es. apply string_of_list_ascii_of_string.
Qed.

Lemma rstrip_number P :
  P <> "" -> Forall (fun c => c <> "."%char) (list_ascii_of_string P) ->
  rstrip "." (rstrip "0" (P +:+ ".00")) = P.
Proof.
  intros Hne Hdig.
  change ".00" with ("." +:+ "00"). rewrite <- string_app_assoc.
  rewrite rstrip_app.
  - rewrite rstrip_app; [done | done | | repeat constructor].
    intros l d Hl. apply (Forall_forall _ _) with (x := d) in Hdig; [done |].
    rewrite Hl. apply elem_of_app. right. by constructor.
  - by destruct P.
  - intros l d Hl. rewrite list_ascii_of_string_app in Hl.
    apply app_inj_tail in Hl as [_ <-]. discriminate.
  - repeat constructor.
Qed.

Lemma float_of_int_exact n : (Z.abs n < 2 ^ 53)%Z -> float_of_int n = Some n.
Proof.
  intros Hn. unfold float_of_int. cbv zeta.
  destruct (decide (Z.abs n < 2 ^ 53)%Z); [| lia].
  rewrite decide_False by lia. f_equal. case_decide; lia.
Qed.

Lemma str_of_Z_shape z :
  str_of_Z z <> "" /\ Forall (fun c => c <> "."%char) (list_ascii_of_string (str_of_Z z)).
Proof.
  unfold str_of_Z. case_decide.
  - destruct (str_of_N_shape (Z.to_N (- z))) as [_ Hd]. split; [discriminate |].
    constructor; [discriminate | exact Hd].
  - apply str_of_N_shape.
Qed.

Lemma fixed2_int n : (0 <= n)%Z -> fixed2 n 0 = str_of_Z n +:+ ".00".
Proof.
  intros Hn. unfold fixed2. rewrite decide_False by lia.
  change (2 ^ Z.of_nat 0)%Z with 1%Z.
  assert (E : round_half_even (Z.abs n * 100) 1 = (n * 100)%Z).
  { unfold round_half_even. rewrite Z.div_1_r, Z.mod_1_r. rewrite decide_True by lia. lia. }
  rewrite E, Z.mod_mul, Z.div_mul by lia. rewrite decide_True by lia.
  reflexivity.
Qed.

(** An int below [1024] (and above [-2^53]) is shown exactly, with unit
    [B]: [humansize(n) == f"{n}  B"]. *)
Theorem humansize_small n :
  (- 2 ^ 53 < n < 1024)%Z -> humansize n = Some (str_of_Z n +:+ "  B").
Proof.
  intros Hn. rewrite humansize_eq_spec. unfold humansize_spec.
  rewrite float_of_int_exact by lia. rewrite option_bind_Some.
  rewrite (unit_index_eq n 0); [| lia | by left | right; simpl; lia].
  change (suffixes !! 0) with (Some "B"). rewrite option_bind_Some. f_equal.
  assert (Hstr : rstrip "." (rstrip "0" (fixed2 n (10 * 0))) = str_of_Z n).
  { change (10 * 0) with 0. destruct (decide (0 <= n)%Z) as [Hpos | Hneg].
    - rewrite fixed2_int by done. apply rstrip_number; apply str_of_Z_shape.
    - unfold fixed2. rewrite decide_True by lia.
      change (2 ^ Z.of_nat 0)%Z with 1%Z.
      assert (E : round_half_even (Z.abs n * 100) 1 = (- n * 100)%Z).
      { unfold round_half_even. rewrite Z.div_1_r, Z.mod_1_r. rewrite decide_True by lia. lia. }
      rewrite E, Z.mod_mul, Z.div_mul by lia. rewrite decide_True by lia.
      change (str_of_Z 0) with "0".
      assert (Es : str_of_Z n = "-" +:+ str_of_Z (- n)).
      { unfold str_of_Z. rewrite decide_True by lia. rewrite decide_False by lia. done. }
      rewrite Es.
      transitivity (rstrip "." (rstrip "0" (("-" +:+ str_of_Z (- n)) +:+ ".00")));
        [by rewrite string_app_assoc |].
      apply rstrip_number; [discriminate |].
      constructor; [discriminate | apply str_of_Z_shape]. }
  rewrite Hstr. reflexivity.
Qed.

Lemma round_half_even_102400 a b :
  (0 < b)%Z -> (204799 * b <= 2 * a)%Z -> (a < 102400 * b)%Z -> round_half_even a b = 102400%Z.
Proof.
  intros Hb Hlo Hhi.
  assert (Hq1 : (102399 <= a / b)%Z) by (apply Z.div_le_lower_bound; lia).
  assert (Hq2 : (a / b < 102400)%Z) by (apply Z.div_lt_upper_bound; lia).
  assert (Hq : (a / b = 102399)%Z) by lia.
  pose proof (Z.div_mod a b ltac:(lia)) as Hdm. rewrite Hq in Hdm.
  unfold round_half_even. rewrite Hq.
  repeat case_decide; try lia. reflexivity.
Qed.

(** Just below the next unit the value is rounded up to [1024] and shown
    in the smaller unit: for [1 <= k <= 4] and
    [1023.995 * 1024^k <= n < 1024^(k+1)], [humansize(n)] is
    ["1024  " + suffixes[k]]. *)
Theorem humansize_1024 n k suffix :
  1 <= k <= 4 -> suffixes !! k = Some suffix ->
  (1023995 * 2 ^ (10 * Z.of_nat k) <= 1000 * n)%Z ->
  (n < 2 ^ (10 * (Z.of_nat k + 1)))%Z ->
  humansize n = Some ("1024  " +:+ suffix).
Proof.
  intros Hk Hs Hlo Hhi.
  assert (Hp : (0 < 2 ^ (10 * Z.of_nat k))%Z) by (apply Z.pow_pos_nonneg; lia).
  assert (Hp50 : (2 ^ (10 * (Z.of_nat k + 1)) <= 2 ^ 50)%Z) by (apply Z.pow_le_mono_r; lia).
  rewrite humansize_eq_spec. unfold humansize_spec.
  rewrite float_of_int_exact by lia. rewrite option_bind_Some.
  rewrite (unit_index_eq n k); [| lia | right; lia | right; done].
  rewrite Hs, option_bind_Some. f_equal.
  unfold fixed2. rewrite Nat2Z.inj_mul.
  rewrite round_half_even_102400; [| done | | ].
  - rewrite decide_False by lia. reflexivity.
  - lia.
  - rewrite <- pow_step in Hhi. lia.
Qed.

Lemma humansize_1024_witness :
  (1 <= 1 <= 4 /\ suffixes !! 1 = Some "KB" /\
   (1023995 * 2 ^ (10 * Z.of_nat 1) <= 1000 * 1048575)%Z /\
   (1048575 < 2 ^ (10 * (Z.of_nat 1 + 1)))%Z) /\
  humansize 1048575 = Some ("1024  " +:+ "KB").
Proof.
  split; [split_and!; first [lia | reflexivity | vm_compute; first [discriminate | reflexivity]] |].
  apply (humansize_1024 1048575 1 "KB"); first [lia | reflexivity | vm_compute; first [discriminate | reflexivity]].
Defined.

Lemma humansize_small_witness :
  (- 2 ^ 53 < -5 < 1024)%Z /\ humansize (-5) = Some (str_of_Z (-5) +:+ "  B").
Proof. split; [lia | apply humansize_small; lia]. Defined.

Lemma parse_path_str_witness :
  path_wf (mkPath "/" ["var"; "data"]) /\
  parse_path (path_str (mkPath "/" ["var"; "data"])) = mkPath "/" ["var"; "data"].
Proof.
  assert (Hwf : path_wf (mkPath "/" ["var"; "data"])).
  { split; [simpl; auto |].
    repeat constructor; try discriminate; cbn; intros Hin;
      repeat (apply elem_of_cons in Hin as [Hin | Hin]; [discriminate |]);
      by apply elem_of_nil in Hin. }
  split; [exact Hwf | apply parse_path_str; exact Hwf].
Defined.

(* ------------------------------------------------------------------ *)
(** ** The rows of to_markdown *)

Lemma filter_Forall_nil {A} (P : A -> Prop) `{forall x, Decision (P x)} l :
  Forall (fun x => ~ P x) l -> filter P l = [].
Proof. induction 1; [done |]. rewrite filter_cons_False by done. done. Qed.

Lemma insert_row_filter k r acc :
  StronglySorted row_le acc ->
  filter (fun x => row_key x = k) (insert_row r acc) =
  filter (fun x => row_key x = k) acc ++ filter (fun x => row_key x = k) [r].
Proof.
  induction acc as [|r' acc IH]; intros Hs; [done |].
  apply StronglySorted_inv in Hs as [Hs Hall]. cbn [insert_row].
  case_bool_decide as Hlt.
  - assert (Hnone : filter (fun x => row_key x = k) (r' :: acc) = [] \/ row_key r <> k).
    { destruct (decide (row_key r = k)) as [<- | Hne]; [left | by right].
      apply filter_Forall_nil. constructor; [lia |].
      eapply Forall_impl; [exact Hall |]. unfold row_le. intros x Hx. lia. }
    rewrite filter_cons. destruct Hnone as [Hn | Hne].
    + rewrite Hn. case_decide; [rewrite filter_cons_True | rewrite filter_cons_False]; try done; reflexivity.
    + rewrite decide_False by done. rewrite (filter_cons_False _ r []) by done.
      by rewrite filter_nil, app_nil_r.
  - rewrite !filter_cons. case_decide; rewrite IH by done; done.
Qed.

Lemma sort_rows_loop_filter k rs acc :
  Sorted row_le acc ->
  filter (fun x => row_key x = k) (foldl (fun acc r => insert_row r acc) acc rs) =
  filter (fun x => row_key x = k) acc ++ filter (fun x => row_key x = k) rs.
Proof.
  revert acc. induction rs as [|r rs IH]; intros acc Hacc; simpl.
  - by rewrite app_nil_r.
  - rewrite IH by (by apply insert_row_sorted).
    rewrite insert_row_filter.
    2:{ apply Sorted_StronglySorted; [| done]. intros x y z; unfold row_le; lia. }
    rewrite <- app_assoc. f_equal. rewrite (filter_cons _ r rs), (filter_cons _ r []), filter_nil.
    by case_decide.
Qed.

(** Sorting the rows of [to_markdown] is stable: the rows with a given
    number of non-duplicated files keep their original order. *)
Theorem sort_rows_stable rs k :
  filter (fun r => row_key r = k) (sort_rows rs) = filter (fun r => row_key r = k) rs.
Proof. unfold sort_rows. rewrite sort_rows_loop_filter by constructor. done. Qed.



Lemma build_cache_Some mss f :
  f ∈ folders_with_duplicates (build mss) ->
  exists groups, folder_cache (build mss) !! f = Some groups.
Proof.
  intros Hf. apply elem_of_folders_with_duplicates in Hf.
  cbn [match_sets build] in Hf. apply build_key_iff, elem_of_dom in Hf as [groups Hg].
  by exists groups.
Qed.

Lemma duplicates_in_folder_build_files mss f groups res x :
  folder_cache (build mss) !! f = Some groups ->
  duplicates_in_folder (build mss) f = Some res ->
  ((exists d, d ∈ res /\ x = in_duplicate_folder d) <->
   parent x = f /\ x ∈ mjoin (file_list <$> mss)).
Proof.
  intros Hg Hres.
  destruct (duplicates_in_folder_elem _ _ _ Hg) as (res' & Hres' & _ & Hel).
  rewrite Hres in Hres'. injection Hres' as <-.
  rewrite list_elem_of_join. setoid_rewrite list_elem_of_fmap. split.
  - intros (d & Hd & ->). apply Hel in Hd as (i & ms & m & _ & Hms & Hm & Hp & ->).
    split; [done |]. exists (file_list ms). split; [done |]. exists ms.
    split; [done |]. by eapply list_elem_of_lookup_2.
  - intros [Hp (l & Hx & ms & -> & Hms)].
    apply list_elem_of_lookup in Hms as [i Hi].
    exists (mkDuplicateInFolder x (list_to_set (file_list ms) ∖ {[x]}) (file_size ms)).
    split; [apply Hel | reflexivity].
    exists i, ms, x. split_and!; try done.
    pose proof (create_folder_cache_elem mss f i) as Hc.
    cbn [folder_cache build] in Hg. rewrite Hg in Hc. apply Hc.
    exists ms. split; [done |]. by exists x.
Qed.





Lemma mapM_Some_elem {A B} (g : A -> option B) l l' x :
  mapM g l = Some l' -> x ∈ l -> exists y, g x = Some y /\ y ∈ l'.
Proof.
  intros Hm Hx. apply mapM_Some_1 in Hm.
  apply list_elem_of_lookup in Hx as [j Hj].
  destruct (Forall2_lookup_l _ _ _ _ _ Hm Hj) as (y & Hy & Hgy).
  exists y. split; [done | by eapply list_elem_of_lookup_2].
Qed.

(** If a file of a match set is not below the user's files directory,
    [to_markdown] raises ([relative_to] raises [ValueError]). *)
Theorem to_markdown_outside_user u is_dir iterdir quote domain mss ms m :
  ms ∈ mss -> m ∈ file_list ms -> relative_to m (user_file_path u) = None ->
  to_markdown u is_dir iterdir quote domain (build mss) = None.
Proof.
  intros Hms Hm Hrel.
  destruct (to_markdown u is_dir iterdir quote domain (build mss)) as [s|] eqn:E; [| done].
  exfalso.
  destruct (to_markdown_Some _ _ _ _ _ _ _ E) as (rows & header & sections & Hrows & _ & _ & Hsecs).
  assert (Hf : parent m ∈ folders_with_duplicates (build mss)).
  { apply elem_of_folders_with_duplicates. by exists ms, m. }
  destruct (build_cache_Some mss (parent m) Hf) as [groups Hg].
  destruct (mapM_Some_elem _ _ _ _ Hrows Hf) as (row & Hrow & Hrow_in).
  unfold folder_row in Hrow.
  destruct (duplicates_in_folder (build mss) (parent m)) as [res|] eqn:Eres; [| discriminate].
  rewrite option_bind_Some in Hrow. injection Hrow as <-.
  assert (Hin : mkFolderRow (parent m) res
                  (filter (fun x => x ∉ foldl (fun s d => set_add (in_duplicate_folder d) s) [] res)
                     (iterdir (parent m))) ∈ sort_rows rows).
  { apply list_elem_of_In. eapply Permutation_in; [symmetry; apply sort_rows_perm |].
    by apply list_elem_of_In. }
  destruct (mapM_Some_elem _ _ _ _ Hsecs Hin) as (sec & Hsec & _).
  unfold folder_section in Hsec. cbn [row_folder row_duplicates row_not_duplicates] in Hsec.
  rewrite Eres, option_bind_Some in Hsec.
  destruct (humansize (sum_sizes res)); [rewrite option_bind_Some in Hsec | discriminate].
  destruct (mapM (duplicate_lines u is_dir quote domain) res) as [dls|] eqn:Edl; [| discriminate].
  destruct (proj2 (duplicates_in_folder_build_files mss (parent m) groups res m Hg Eres))
    as (d & Hd & Hdm).
  { split; [done |]. apply list_elem_of_join. exists (file_list ms). split; [done |].
    apply list_elem_of_fmap. by exists ms. }
  destruct (mapM_Some_elem _ _ _ _ Edl Hd) as (dl & Hdl & _).
  unfold duplicate_lines in Hdl. rewrite <- Hdm, Hrel in Hdl. discriminate.
Qed.

Lemma to_markdown_outside_user_witness :
  let mss := [mkMatchSet 10 [p "/" ["tmp"; "a"]; p "/" ["tmp"; "b"]]] in
  mkMatchSet 10 [p "/" ["tmp"; "a"]; p "/" ["tmp"; "b"]] ∈ mss /\
  p "/" ["tmp"; "a"] ∈ file_list (mkMatchSet 10 [p "/" ["tmp"; "a"]; p "/" ["tmp"; "b"]]) /\
  relative_to (p "/" ["tmp"; "a"]) (user_file_path "bob") = None /\
  to_markdown "bob" (fun _ => false) (fun _ => []) py_quote "https://cloud" (build mss) = None.
Proof.
  intros mss.
  assert (H1 : mkMatchSet 10 [p "/" ["tmp"; "a"]; p "/" ["tmp"; "b"]] ∈ mss) by (subst mss; left).
  assert (H2 : p "/" ["tmp"; "a"] ∈ file_list (mkMatchSet 10 [p "/" ["tmp"; "a"]; p "/" ["tmp"; "b"]]))
    by left.
  assert (H3 : relative_to (p "/" ["tmp"; "a"]) (user_file_path "bob") = None)
    by (vm_compute; reflexivity).
  split_and!; [exact H1 | exact H2 | exact H3 |].
  exact (to_markdown_outside_user "bob" (fun _ => false) (fun _ => []) py_quote "https://cloud"
           mss _ _ H1 H2 H3).
Defined.

(* ------------------------------------------------------------------ *)
(** ** JDupesOutput._get_matchsets, quote and the report header *)




Lemma py_quote_length s : String.length s <= String.length (py_quote s).
Proof.
  induction s as [|c s IH]; cbn [py_quote]; [done |].
  destruct (quote_safe c); simpl; lia.
Qed.

(** [quote(s) == s] exactly when every character of [s] is safe. *)
Theorem py_quote_id s :
  py_quote s = s <-> Forall (fun c => quote_safe c = true) (list_ascii_of_string s).
Proof.
  induction s as [|c s IH]; cbn [py_quote list_ascii_of_string].
  - split; [constructor | done].
  - rewrite Forall_cons. destruct (quote_safe c) eqn:Hc.
    + rewrite <- IH. split; [intros [= H]; by split | intros [_ H]; by rewrite H].
    + split; [| intros [[=] _]].
      intros Heq. exfalso. pose proof (py_quote_length s) as Hl.
      apply (f_equal String.length) in Heq. simpl in Heq. lia.
Qed.

(** With no match set, the report is the header alone: zero duplicates
    in zero folders, [0  B] in total. *)
Theorem to_markdown_empty u is_dir iterdir quote domain :
  to_markdown u is_dir iterdir quote domain (build []) =
  Some ("# Duplikate von " +:+ u +:+ newline +:+
        "Es gibt 0 Duplikate in 0 Ordnern.  " +:+ newline +:+
        "Diese sind insgesamt 0  B groß." +:+ newline +:+
        "## Alle Ordner mit Duplikaten").
Proof. reflexivity. Qed.

Lemma total_size_perm mss mss' : mss ≡ₚ mss' -> total_size (build mss) = total_size (build mss').
Proof.
  unfold total_size. cbn [match_sets build]. induction 1; simpl; lia.
Qed.

Lemma folders_with_duplicates_perm mss mss' :
  mss ≡ₚ mss' -> folders_with_duplicates (build mss) ≡ₚ folders_with_duplicates (build mss').
Proof.
  intros Hp. apply NoDup_Permutation; [apply folders_with_duplicates_NoDup .. |].
  intros f. rewrite !elem_of_folders_with_duplicates. cbn [match_sets build].
  setoid_rewrite Hp. done.
Qed.

(** The header of the report does not depend on the order in which the
    set of match sets is iterated. *)
Theorem header_lines_perm u mss mss' :
  mss ≡ₚ mss' -> header_lines u (build mss) = header_lines u (build mss').
Proof.
  intros Hp. unfold header_lines.
  rewrite (total_size_perm mss mss' Hp).
  rewrite (Permutation_length (folders_with_duplicates_perm mss mss' Hp)).
  cbn [match_sets build]. by rewrite (Permutation_length Hp).
Qed.

Lemma header_lines_perm_witness :
  report_groups ≡ₚ rev report_groups /\
  header_lines "bob" (build report_groups) = header_lines "bob" (build (rev report_groups)).
Proof.
  assert (Hp : report_groups ≡ₚ rev report_groups) by apply Permutation_rev.
  split; [exact Hp | exact (header_lines_perm "bob" _ _ Hp)].
Defined.

Lemma py_quote_inj_witness :
  py_quote "a b" = py_quote "a b" /\ "a b" = "a b".
Proof. split; [reflexivity | exact (py_quote_inj "a b" "a b" eq_refl)]. Defined.
